(** * The Bigtable [Table] facade: Apply, BulkApply, ReadRows and ReadRow

    A shallow embedding of [google/cloud/bigtable/table.cc].  The retry
    loops are written with explicit state passing: the objects a loop
    mutates (the data client and the policy clones) are threaded through
    the iterations, and the effects a caller can observe (RPC attempts and
    sleeps) are collected in a trace.  A [while] loop that the source
    leaves to the policies to terminate takes a fuel argument and answers
    [None] when the fuel runs out. *)

From Stdlib Require Import String List ZArith Lia Bool Arith PeanoNat.
From Stdlib Require Import Permutation.
Import ListNotations.
Local Open Scope string_scope.
Local Open Scope list_scope.

Set Implicit Arguments.

(** ** Status values *)

(** [grpc::StatusCode] and [grpc::Status], as the transport reports them. *)
Module grpc.

Inductive StatusCode : Type :=
| OK | CANCELLED | UNKNOWN | INVALID_ARGUMENT | DEADLINE_EXCEEDED
| NOT_FOUND | ALREADY_EXISTS | PERMISSION_DENIED | RESOURCE_EXHAUSTED
| FAILED_PRECONDITION | ABORTED | OUT_OF_RANGE | UNIMPLEMENTED
| INTERNAL | UNAVAILABLE | DATA_LOSS | UNAUTHENTICATED.

Record Status : Type := { error_code : StatusCode; error_message : string }.

Definition ok (s : Status) : bool :=
  match error_code s with OK => true | _ => false end.

End grpc.

(** [google::cloud::StatusCode] and [google::cloud::Status]. *)
Inductive StatusCode : Type :=
| kOk | kCancelled | kUnknown | kInvalidArgument | kDeadlineExceeded
| kNotFound | kAlreadyExists | kPermissionDenied | kResourceExhausted
| kFailedPrecondition | kAborted | kOutOfRange | kUnimplemented
| kInternal | kUnavailable | kDataLoss | kUnauthenticated.

Record Status : Type := { code : StatusCode; message : string }.

(** [google::cloud::Status{}], the default constructed status. *)
Definition Status_default : Status := {| code := kOk; message := "" |}.

Inductive StatusOr (T : Type) : Type :=
| Value (v : T)
| Failure (s : Status).
Arguments Value {T} v.
Arguments Failure {T} s.

(** Modelled from the spec: [internal::MakeStatusFromRpcError] lives in
    [internal/grpc_error_delegate], which is not among the sources.  The
    spec has it "return a permanent error wrapping the RPC failure": the
    status keeps the failure's code (the two enumerations list the same
    seventeen codes) and takes the message it is given. *)
Definition MapStatusCode (c : grpc.StatusCode) : StatusCode :=
  match c with
  | grpc.OK => kOk
  | grpc.CANCELLED => kCancelled
  | grpc.UNKNOWN => kUnknown
  | grpc.INVALID_ARGUMENT => kInvalidArgument
  | grpc.DEADLINE_EXCEEDED => kDeadlineExceeded
  | grpc.NOT_FOUND => kNotFound
  | grpc.ALREADY_EXISTS => kAlreadyExists
  | grpc.PERMISSION_DENIED => kPermissionDenied
  | grpc.RESOURCE_EXHAUSTED => kResourceExhausted
  | grpc.FAILED_PRECONDITION => kFailedPrecondition
  | grpc.ABORTED => kAborted
  | grpc.OUT_OF_RANGE => kOutOfRange
  | grpc.UNIMPLEMENTED => kUnimplemented
  | grpc.INTERNAL => kInternal
  | grpc.UNAVAILABLE => kUnavailable
  | grpc.DATA_LOSS => kDataLoss
  | grpc.UNAUTHENTICATED => kUnauthenticated
  end.

Definition MakeStatusFromRpcError (c : grpc.StatusCode) (msg : string)
  : Status :=
  {| code := MapStatusCode c; message := msg |}.

(** [std::chrono::milliseconds], the delay a backoff policy computes. *)
Definition milliseconds : Type := Z.

(** What the calling thread does that an observer can see: one RPC attempt
    with the status it came back with, or one [sleep_for]. *)
Inductive Event : Type :=
| EvRpc (status : grpc.Status)
| EvSleep (delay : milliseconds).

Definition is_rpc (e : Event) : bool :=
  match e with EvRpc _ => true | EvSleep _ => false end.

(** Number of RPC attempts in a trace. *)
Definition rpc_attempts (tr : list Event) : nat :=
  List.length (filter is_rpc tr).

(** [FailedMutation]: the original index of a bulk entry and its status. *)
Record FailedMutation : Type :=
  { original_index : nat; status : grpc.Status }.

(** ** Requests, policies and the data client *)

Section Bigtable.

(** The wire [Mutation], the [grpc::ClientContext], the read filter, the
    row set and the cells of a row come from generated or external code;
    the facade only passes them around. *)
Context {Mutation ClientContext Filter RowSet Cell : Type}.

(** A default constructed [grpc::ClientContext]. *)
Class ClientContextOps : Type :=
  { ClientContext_new : ClientContext }.

(** [RowSet(std::move(row_key))]: the row set of one row key. *)
Class RowSetOps : Type :=
  { RowSet_of_key : string -> RowSet }.

Context `{ClientContextOps} `{RowSetOps}.

(** [SingleRowMutation]: a row key and the mutations for that row. *)
Record SingleRowMutation : Type :=
  { srm_row_key : string; srm_ops : list Mutation }.

(** [BulkMutation]: the entries in submission order. *)
Definition BulkMutation : Type := list SingleRowMutation.

(** [btproto::MutateRowRequest]. *)
Record MutateRowRequest : Type :=
  { table_name : string;
    app_profile_id : string;
    row_key : string;
    mutations : list Mutation }.

Definition MutateRowRequest_empty : MutateRowRequest :=
  {| table_name := ""; app_profile_id := ""; row_key := "";
     mutations := [] |}.

(** [SetCommonTableOperationRequest]: fills in the profile and the table. *)
Definition SetCommonTableOperationRequest
  (request : MutateRowRequest) (app_profile : string) (table : string)
  : MutateRowRequest :=
  {| table_name := table; app_profile_id := app_profile;
     row_key := row_key request; mutations := mutations request |}.

(** [SingleRowMutation::MoveTo]: moves the key and the mutations into the
    request. *)
Definition MoveTo (mut : SingleRowMutation) (request : MutateRowRequest)
  : MutateRowRequest :=
  {| table_name := table_name request;
     app_profile_id := app_profile_id request;
     row_key := srm_row_key mut; mutations := srm_ops mut |}.

(** [Row]: a key and its cells. *)
Record Row : Type := { row_row_key : string; row_cells : list Cell }.

(** The policy interfaces; the classes themselves are not among the
    sources.  [clone] is a [const] method that hands the caller a new
    object, which the caller alone owns (a [std::unique_ptr]): a clone is
    a value of its own.  [Setup] is a [const] method that writes into the
    client context.  [OnFailure] and [OnCompletion] update the policy they
    are called on, and only that one. *)
Class RPCRetryPolicy (R : Type) : Type :=
  { retry_clone : R -> R;
    retry_Setup : R -> ClientContext -> ClientContext;
    OnFailure : R -> grpc.Status -> bool * R }.

Class RPCBackoffPolicy (B : Type) : Type :=
  { backoff_clone : B -> B;
    backoff_Setup : B -> ClientContext -> ClientContext;
    OnCompletion : B -> grpc.Status -> milliseconds * B }.

Class IdempotentMutationPolicy (I : Type) : Type :=
  { idempotent_clone : I -> I;
    is_idempotent : I -> Mutation -> bool }.

Class MetadataUpdatePolicy (MD : Type) : Type :=
  { metadata_Setup : MD -> ClientContext -> ClientContext }.

(** [btproto::MutateRowsRequest]: the entries of one bulk round. *)
Record MutateRowsRequest : Type :=
  { mrs_table_name : string;
    mrs_app_profile_id : string;
    mrs_entries : list SingleRowMutation }.

(** Modelled from the spec: what one [MutateRows] call comes back with.
    The streaming stub is not among the sources; the spec has "the
    response carries a per-entry status aligned to the entries sent", or
    else "the whole-request transport call itself failed outright (no
    per-entry detail available)". *)
Inductive MutateRowsResult : Type :=
| EntryStatuses (statuses : list grpc.Status)
| TransportFailure (s : grpc.Status).

(** [DataClient]: the RPC stub.  A call returns the status of the RPC and
    leaves the client in a new state. *)
Class DataClient (C : Type) : Type :=
  { MutateRow :
      C -> ClientContext -> MutateRowRequest -> grpc.Status * C;
    MutateRows :
      C -> ClientContext -> MutateRowsRequest -> MutateRowsResult * C }.

(** [internal::BulkMutator], as [Table::BulkApply] uses it. *)
Class BulkMutatorOps (C I M : Type) : Type :=
  { BulkMutator_new : string -> string -> I -> BulkMutation -> M;
    HasPendingMutations : M -> bool;
    MakeOneRequest : M -> C -> ClientContext -> grpc.Status * M * C;
    ExtractFinalFailures : M -> list FailedMutation }.

(** [RowReader], as [Table::ReadRow] uses it: the arguments it was built
    from, and [RowReader_next], which is what [begin()] and [++it] do:
    fetch the next element, [None] once the iterator equals [end()]. *)
Record RowReader (C R B MD : Type) : Type :=
  { rr_client : C;
    rr_app_profile_id : string;
    rr_table_name : string;
    rr_row_set : RowSet;
    rr_rows_limit : Z;
    rr_filter : Filter;
    rr_retry_policy : R;
    rr_backoff_policy : B;
    rr_metadata_update_policy : MD }.

Class RowReaderOps (C R B MD : Type) : Type :=
  { NO_ROWS_LIMIT : Z;
    RowReader_next :
      RowReader C R B MD -> option (StatusOr Row) * RowReader C R B MD }.

(** ** The table *)

Record Table (C R B I MD : Type) : Type :=
  { client_ : C;
    app_profile_id_ : string;
    table_name_ : string;
    rpc_retry_policy_ : R;
    rpc_backoff_policy_ : B;
    metadata_update_policy_ : MD;
    idempotent_mutation_policy_ : I }.

Definition set_client {C R B I MD} (t : Table C R B I MD) (c : C)
  : Table C R B I MD :=
  {| client_ := c;
     app_profile_id_ := app_profile_id_ t;
     table_name_ := table_name_ t;
     rpc_retry_policy_ := rpc_retry_policy_ t;
     rpc_backoff_policy_ := rpc_backoff_policy_ t;
     metadata_update_policy_ := metadata_update_policy_ t;
     idempotent_mutation_policy_ := idempotent_mutation_policy_ t |}.

Section Operations.

Context {C R B I MD : Type}.
Context `{DataClient C} `{RPCRetryPolicy R} `{RPCBackoffPolicy B}
        `{IdempotentMutationPolicy I} `{MetadataUpdatePolicy MD}.

(** *** Table::Apply *)

Definition Apply_error_message : string :=
  "Permanent (or too many transient) errors in Table::Apply()".

(** The request [Table::Apply] builds. *)
Definition Apply_request (t : Table C R B I MD) (mut : SingleRowMutation)
  : MutateRowRequest :=
  MoveTo mut
    (SetCommonTableOperationRequest MutateRowRequest_empty
       (app_profile_id_ t) (table_name_ t)).

(** [is_idempotent]: [std::all_of] over the mutations of the request, asked
    of the clone of the idempotency policy. *)
Definition Apply_is_idempotent (t : Table C R B I MD)
  (mut : SingleRowMutation) : bool :=
  let idempotent_policy := idempotent_clone (idempotent_mutation_policy_ t) in
  forallb (is_idempotent idempotent_policy)
          (mutations (Apply_request t mut)).

(** The context of one attempt of [Apply]. *)
Definition Apply_context (md : MD) (rpc_policy : R) (backoff_policy : B)
  : ClientContext :=
  metadata_Setup md
    (backoff_Setup backoff_policy
       (retry_Setup rpc_policy ClientContext_new)).

(** The [while (true)] loop of [Table::Apply]. *)
Fixpoint Apply_loop (fuel : nat) (md : MD) (request : MutateRowRequest)
  (is_idem : bool) (client : C) (rpc_policy : R) (backoff_policy : B)
  : option (Status * C * list Event) :=
  match fuel with
  | O => None
  | S fuel' =>
    let client_context := Apply_context md rpc_policy backoff_policy in
    let (status, client') := MutateRow client client_context request in
    if grpc.ok status then Some (Status_default, client', [EvRpc status])
    else
      let (again, rpc_policy') := OnFailure rpc_policy status in
      if negb again || negb is_idem then
        Some (MakeStatusFromRpcError (grpc.error_code status)
                Apply_error_message,
              client', [EvRpc status])
      else
        let (delay, backoff_policy') := OnCompletion backoff_policy status in
        match Apply_loop fuel' md request is_idem client'
                rpc_policy' backoff_policy' with
        | Some (result, client'', tr) =>
            Some (result, client'', EvRpc status :: EvSleep delay :: tr)
        | None => None
        end
  end.

Definition Apply (fuel : nat) (t : Table C R B I MD)
  (mut : SingleRowMutation) : option (Status * Table C R B I MD * list Event) :=
  let rpc_policy := retry_clone (rpc_retry_policy_ t) in
  let backoff_policy := backoff_clone (rpc_backoff_policy_ t) in
  let request := Apply_request t mut in
  let is_idem := Apply_is_idempotent t mut in
  match Apply_loop fuel (metadata_update_policy_ t) request is_idem
          (client_ t) rpc_policy backoff_policy with
  | Some (result, client', tr) => Some (result, set_client t client', tr)
  | None => None
  end.

(** *** Table::BulkApply *)

Section BulkApply.

Context {M : Type} `{BulkMutatorOps C I M}.

(** The objects the loop of [BulkApply] works on. *)
Record BulkState : Type :=
  { bs_mutator : M;
    bs_client : C;
    bs_retry_policy : R;
    bs_backoff_policy : B }.

(** How one pass through the loop body ends: at the [break], or at the
    bottom after the sleep. *)
Inductive BulkRound : Type :=
| RoundBreak (st : BulkState) (status : grpc.Status)
| RoundNext (st : BulkState) (status : grpc.Status) (delay : milliseconds).

(** The context of one round of [BulkApply]. *)
Definition BulkApply_context (md : MD) (backoff_policy : B) (retry_policy : R)
  : ClientContext :=
  metadata_Setup md
    (retry_Setup retry_policy
       (backoff_Setup backoff_policy ClientContext_new)).

(** The body of the [while] loop of [Table::BulkApply]. *)
Definition BulkApply_round (md : MD) (st : BulkState) : BulkRound :=
  let client_context :=
    BulkApply_context md (bs_backoff_policy st) (bs_retry_policy st) in
  let '(status, mutator', client') :=
    MakeOneRequest (bs_mutator st) (bs_client st) client_context in
  let (stop, retry_policy') :=
    if grpc.ok status then (false, bs_retry_policy st)
    else let (again, r') := OnFailure (bs_retry_policy st) status in
         (negb again, r') in
  if stop then
    RoundBreak {| bs_mutator := mutator'; bs_client := client';
                  bs_retry_policy := retry_policy';
                  bs_backoff_policy := bs_backoff_policy st |} status
  else
    let (delay, backoff_policy') :=
      OnCompletion (bs_backoff_policy st) status in
    RoundNext {| bs_mutator := mutator'; bs_client := client';
                 bs_retry_policy := retry_policy';
                 bs_backoff_policy := backoff_policy' |} status delay.

(** [while (mutator.HasPendingMutations()) { ... }]. *)
Fixpoint BulkApply_loop (fuel : nat) (md : MD) (st : BulkState)
  : option (BulkState * list Event) :=
  match fuel with
  | O => None
  | S fuel' =>
    if HasPendingMutations (bs_mutator st) then
      match BulkApply_round md st with
      | RoundBreak st' status => Some (st', [EvRpc status])
      | RoundNext st' status delay =>
        match BulkApply_loop fuel' md st' with
        | Some (fin, tr) => Some (fin, EvRpc status :: EvSleep delay :: tr)
        | None => None
        end
      end
    else Some (st, [])
  end.

(** The state [BulkApply] enters its loop with. *)
Definition BulkApply_init (t : Table C R B I MD) (mut : BulkMutation)
  : BulkState :=
  let backoff_policy := backoff_clone (rpc_backoff_policy_ t) in
  let retry_policy := retry_clone (rpc_retry_policy_ t) in
  let idemponent_policy := idempotent_clone (idempotent_mutation_policy_ t) in
  {| bs_mutator :=
       BulkMutator_new (app_profile_id_ t) (table_name_ t)
         idemponent_policy mut;
     bs_client := client_ t;
     bs_retry_policy := retry_policy;
     bs_backoff_policy := backoff_policy |}.

Definition BulkApply (fuel : nat) (t : Table C R B I MD) (mut : BulkMutation)
  : option (list FailedMutation * Table C R B I MD * list Event) :=
  match BulkApply_loop fuel (metadata_update_policy_ t)
          (BulkApply_init t mut) with
  | Some (fin, tr) =>
      let failures := ExtractFinalFailures (bs_mutator fin) in
      Some (failures, set_client t (bs_client fin), tr)
  | None => None
  end.

(** The state at the head of the loop once [n] rounds have gone through to
    the bottom of the body, [None] when the loop has left before that. *)
Fixpoint BulkApply_state_after (n : nat) (md : MD) (st : BulkState)
  : option BulkState :=
  match n with
  | O => Some st
  | S n' =>
    if HasPendingMutations (bs_mutator st) then
      match BulkApply_round md st with
      | RoundBreak _ _ => None
      | RoundNext st' _ _ => BulkApply_state_after n' md st'
      end
    else None
  end.

(** The rounds of [BulkApply] as the spec tells them, for comparison with
    the loop above: [BulkApply_run md st tr fin] says that from the state
    [st] the rounds leave the trace [tr] and end in the state [fin].
    With nothing pending there is no round.  A round sends the request of
    the mutator; when the request fails as a whole and the retry policy
    refuses another attempt, the rounds end there; otherwise (the request
    succeeded as a whole, or the retry policy allows another attempt) the
    delay of the backoff policy is waited and the rounds go on. *)
Inductive BulkApply_run (md : MD)
  : BulkState -> list Event -> BulkState -> Prop :=
| run_nothing_pending (st : BulkState) :
    HasPendingMutations (bs_mutator st) = false ->
    BulkApply_run md st [] st
| run_refused (st : BulkState) (status : grpc.Status) (mutator' : M)
    (client' : C) (retry_policy' : R) :
    HasPendingMutations (bs_mutator st) = true ->
    MakeOneRequest (bs_mutator st) (bs_client st)
      (BulkApply_context md (bs_backoff_policy st) (bs_retry_policy st))
    = (status, mutator', client') ->
    grpc.ok status = false ->
    OnFailure (bs_retry_policy st) status = (false, retry_policy') ->
    BulkApply_run md st [EvRpc status]
      {| bs_mutator := mutator'; bs_client := client';
         bs_retry_policy := retry_policy';
         bs_backoff_policy := bs_backoff_policy st |}
| run_round_succeeded (st : BulkState) (status : grpc.Status)
    (mutator' : M) (client' : C) (delay : milliseconds)
    (backoff_policy' : B) (tr : list Event) (fin : BulkState) :
    HasPendingMutations (bs_mutator st) = true ->
    MakeOneRequest (bs_mutator st) (bs_client st)
      (BulkApply_context md (bs_backoff_policy st) (bs_retry_policy st))
    = (status, mutator', client') ->
    grpc.ok status = true ->
    OnCompletion (bs_backoff_policy st) status = (delay, backoff_policy') ->
    BulkApply_run md
      {| bs_mutator := mutator'; bs_client := client';
         bs_retry_policy := bs_retry_policy st;
         bs_backoff_policy := backoff_policy' |} tr fin ->
    BulkApply_run md st (EvRpc status :: EvSleep delay :: tr) fin
| run_round_retried (st : BulkState) (status : grpc.Status)
    (mutator' : M) (client' : C) (retry_policy' : R)
    (delay : milliseconds) (backoff_policy' : B) (tr : list Event)
    (fin : BulkState) :
    HasPendingMutations (bs_mutator st) = true ->
    MakeOneRequest (bs_mutator st) (bs_client st)
      (BulkApply_context md (bs_backoff_policy st) (bs_retry_policy st))
    = (status, mutator', client') ->
    grpc.ok status = false ->
    OnFailure (bs_retry_policy st) status = (true, retry_policy') ->
    OnCompletion (bs_backoff_policy st) status = (delay, backoff_policy') ->
    BulkApply_run md
      {| bs_mutator := mutator'; bs_client := client';
         bs_retry_policy := retry_policy';
         bs_backoff_policy := backoff_policy' |} tr fin ->
    BulkApply_run md st (EvRpc status :: EvSleep delay :: tr) fin.

(** The status of the request that a round started from [st] makes. *)
Definition round_status (md : MD) (st : BulkState) : grpc.Status :=
  let client_context :=
    BulkApply_context md (bs_backoff_policy st) (bs_retry_policy st) in
  fst (fst (MakeOneRequest (bs_mutator st) (bs_client st) client_context)).

(** The loop is over at the state [st]: no mutation is pending, or the
    request of this round fails as a whole and the retry policy refuses
    another attempt. *)
Definition BulkApply_stops (md : MD) (st : BulkState) : bool :=
  negb (HasPendingMutations (bs_mutator st))
  || (negb (grpc.ok (round_status md st))
      && negb (fst (OnFailure (bs_retry_policy st) (round_status md st)))).

End BulkApply.

(** *** Table::ReadRows and Table::ReadRow *)

Section ReadRows.

Context `{RowReaderOps C R B MD}.

(** [ReadRows(row_set, filter)]. *)
Definition ReadRows (t : Table C R B I MD) (row_set : RowSet)
  (filter : Filter) : RowReader C R B MD :=
  {| rr_client := client_ t;
     rr_app_profile_id := app_profile_id_ t;
     rr_table_name := table_name_ t;
     rr_row_set := row_set;
     rr_rows_limit := NO_ROWS_LIMIT;
     rr_filter := filter;
     rr_retry_policy := retry_clone (rpc_retry_policy_ t);
     rr_backoff_policy := backoff_clone (rpc_backoff_policy_ t);
     rr_metadata_update_policy := metadata_update_policy_ t |}.

(** [ReadRows(row_set, rows_limit, filter)]. *)
Definition ReadRows_limit (t : Table C R B I MD) (row_set : RowSet)
  (rows_limit : Z) (filter : Filter) : RowReader C R B MD :=
  {| rr_client := client_ t;
     rr_app_profile_id := app_profile_id_ t;
     rr_table_name := table_name_ t;
     rr_row_set := row_set;
     rr_rows_limit := rows_limit;
     rr_filter := filter;
     rr_retry_policy := retry_clone (rpc_retry_policy_ t);
     rr_backoff_policy := backoff_clone (rpc_backoff_policy_ t);
     rr_metadata_update_policy := metadata_update_policy_ t |}.

Definition ReadRow_error_message : string :=
  "internal error - RowReader returned 2 rows in ReadRow()".

(** [Row("", {})]. *)
Definition Row_empty : Row := {| row_row_key := ""; row_cells := [] |}.

(** The reader that [ReadRow] scans with. *)
Definition ReadRow_reader (t : Table C R B I MD) (row_key : string)
  (filter : Filter) : RowReader C R B MD :=
  let row_set := RowSet_of_key row_key in
  let rows_limit := 1%Z in
  ReadRows_limit t row_set rows_limit filter.

(** [Table::ReadRow].  The reader shares the client of the table: what its
    calls did to the client is what the table is left with. *)
Definition ReadRow (t : Table C R B I MD) (row_key : string)
  (filter : Filter) : StatusOr (bool * Row) * Table C R B I MD :=
  let reader := ReadRow_reader t row_key filter in
  let (it, reader1) := RowReader_next reader in
  match it with
  | None => (Value (false, Row_empty), set_client t (rr_client reader1))
  | Some (Failure s) => (Failure s, set_client t (rr_client reader1))
  | Some (Value row) =>
    let result := (true, row) in
    let (it', reader2) := RowReader_next reader1 in
    match it' with
    | Some _ =>
        (Failure {| code := kInternal; message := ReadRow_error_message |},
         set_client t (rr_client reader2))
    | None => (Value result, set_client t (rr_client reader2))
    end
  end.

End ReadRows.

(** *** What the collaborators are seen to do

    The vocabulary of the statements about the retry loops: what a client
    answers to successive calls, and what a retry policy answers when it is
    shown successive failures. *)

(** The client answers the next calls for [request] with the statuses
    [ss], in this order, whatever context a call carries. *)
Fixpoint MutateRow_answers (client : C) (request : MutateRowRequest)
  (ss : list grpc.Status) : Prop :=
  match ss with
  | [] => True
  | s :: ss' =>
    forall ctx,
      fst (MutateRow client ctx request) = s /\
      MutateRow_answers (snd (MutateRow client ctx request)) request ss'
  end.

(** The retry policy, shown the failures [ss] in turn, allows another
    attempt after each of them. *)
Fixpoint retry_accepts (rpc_policy : R) (ss : list grpc.Status) : bool :=
  match ss with
  | [] => true
  | s :: ss' =>
    let (again, rpc_policy') := OnFailure rpc_policy s in
    again && retry_accepts rpc_policy' ss'
  end.

(** The retry policy allows exactly [length ss] attempts when the attempts
    fail with [ss]: it allows another attempt after every failure but the
    last, where it gives up. *)
Fixpoint retry_gives_up_at (rpc_policy : R) (ss : list grpc.Status) : bool :=
  match ss with
  | [] => false
  | s :: ss' =>
    let (again, rpc_policy') := OnFailure rpc_policy s in
    match ss' with
    | [] => negb again
    | _ :: _ => again && retry_gives_up_at rpc_policy' ss'
    end
  end.

Definition failed (s : grpc.Status) : Prop := grpc.ok s = false.

(** The policies stored in the table [t'] are those stored in [t]. *)
Definition same_policies (t t' : Table C R B I MD) : Prop :=
  rpc_retry_policy_ t' = rpc_retry_policy_ t /\
  rpc_backoff_policy_ t' = rpc_backoff_policy_ t /\
  idempotent_mutation_policy_ t' = idempotent_mutation_policy_ t.

(** Every wait of the trace comes right after an RPC that failed and right
    before another RPC. *)
Fixpoint waits_follow_failures_and_precede_rounds (tr : list Event) : bool :=
  match tr with
  | [] => true
  | EvSleep _ :: _ => false
  | EvRpc s :: tr' =>
    match tr' with
    | EvSleep _ :: tr'' =>
      negb (grpc.ok s)
      && match tr'' with EvRpc _ :: _ => true | _ => false end
      && waits_follow_failures_and_precede_rounds tr''
    | _ => waits_follow_failures_and_precede_rounds tr'
    end
  end.

(** Between two consecutive RPCs of the trace there is exactly one wait,
    and its delay is what the backoff policy, in the state it then has,
    computes from the status of the earlier of the two. *)
Fixpoint rounds_separated_by_backoff (backoff_policy : B) (tr : list Event)
  : Prop :=
  match tr with
  | [] => True
  | EvSleep _ :: _ => False
  | EvRpc s :: tr' =>
    match tr' with
    | [] => True
    | EvRpc _ :: _ => False
    | EvSleep delay :: tr'' =>
      match tr'' with
      | [] => True
      | _ :: _ =>
        delay = fst (OnCompletion backoff_policy s) /\
        rounds_separated_by_backoff
          (snd (OnCompletion backoff_policy s)) tr''
      end
    end
  end.

End Operations.

(** ** The collaborators that are not among the sources *)

(** Modelled from the spec: a retry policy with a configured bound on the
    attempts of one operation; the retry policy classes are not among the
    sources.  The spec has a retry policy decide "given a failure status,
    whether another attempt is permitted", be "stateful (tracks attempt
    count ...)", advance its counters "only on failures it is shown", call
    a status transient when the policy classifies it as retryable, and
    has [clone] give an independent, fresh instance. *)
Record BoundedRetryPolicy : Type :=
  { brp_transient : grpc.StatusCode -> bool;
    brp_bound : nat;
    brp_attempts : nat }.

Definition BoundedRetryPolicy_clone (p : BoundedRetryPolicy)
  : BoundedRetryPolicy :=
  {| brp_transient := brp_transient p; brp_bound := brp_bound p;
     brp_attempts := 0 |}.

Definition BoundedRetryPolicy_OnFailure (p : BoundedRetryPolicy)
  (s : grpc.Status) : bool * BoundedRetryPolicy :=
  let attempts := S (brp_attempts p) in
  (brp_transient p (grpc.error_code s) && Nat.ltb attempts (brp_bound p),
   {| brp_transient := brp_transient p; brp_bound := brp_bound p;
      brp_attempts := attempts |}).

#[export] Instance BoundedRetryPolicy_policy
  : RPCRetryPolicy BoundedRetryPolicy :=
  {| retry_clone := BoundedRetryPolicy_clone;
     retry_Setup := fun _ ctx => ctx;
     OnFailure := BoundedRetryPolicy_OnFailure |}.

Section BulkMutatorModel.

Context {C I : Type} `{DataClient C} `{IdempotentMutationPolicy I}.

(** Modelled from the spec: [internal::BulkMutator] is not among the
    sources.  The spec gives its state as "a mapping from original index to
    pending SingleRowMutation, plus an accumulating list of
    FailedMutation"; the pending entries are kept in submission order, each
    with its original index.  The mutator also keeps the status of its
    last request, which is what the entries still pending are reported
    with once the loop is over. *)
Record BulkMutator : Type :=
  { bm_app_profile_id : string;
    bm_table_name : string;
    bm_idempotent_policy : I;
    bm_pending : list (nat * SingleRowMutation);
    bm_failures : list FailedMutation;
    bm_last_status : grpc.Status }.

Definition grpc_Status_OK : grpc.Status :=
  {| grpc.error_code := grpc.OK; grpc.error_message := "" |}.

(** Modelled from the spec: a bulk entry is idempotent when each of its
    mutations is, as for the single request of [Apply]. *)
Definition entry_is_idempotent (policy : I) (mut : SingleRowMutation)
  : bool :=
  forallb (is_idempotent policy) (srm_ops mut).

(** Modelled from the spec: the mutator starts with every entry pending
    under its submission position. *)
Definition BulkMutator_make (app_profile table : string) (policy : I)
  (mut : BulkMutation) : BulkMutator :=
  {| bm_app_profile_id := app_profile;
     bm_table_name := table;
     bm_idempotent_policy := policy;
     bm_pending := combine (seq 0 (List.length mut)) mut;
     bm_failures := [];
     bm_last_status := grpc_Status_OK |}.

(** Modelled from the spec: step 3 of the round, "for each entry: if its
    status is success, remove it from pending.  If its status is a
    failure: ... if the mutation is not idempotent ... move it to the
    failures list with its original index and last status; otherwise,
    leave it pending for the next round".  [Table::BulkApply] builds the
    mutator without the retry policy, so the retry budget that step 3 also
    names is not the mutator's to ask: it is the loop of [BulkApply] that
    consults the retry policy, and what is pending when the loop gives up
    is reported by [ExtractFinalFailures].  The statuses are aligned to
    the entries sent; an entry the response has no status for stays
    pending.  The answer is the entries left pending and the new
    failures. *)
Fixpoint process_entries (policy : I)
  (pending : list (nat * SingleRowMutation)) (statuses : list grpc.Status)
  : list (nat * SingleRowMutation) * list FailedMutation :=
  match pending, statuses with
  | [], _ => ([], [])
  | _ :: _, [] => (pending, [])
  | (index, mut) :: pending', s :: statuses' =>
    let (still, failures) := process_entries policy pending' statuses' in
    if grpc.ok s then (still, failures)
    else if entry_is_idempotent policy mut
         then ((index, mut) :: still, failures)
         else (still, {| original_index := index; status := s |} :: failures)
  end.

(** The original indices of the entries that the statuses of one response
    report as done. *)
Fixpoint succeeded_entries (pending : list (nat * SingleRowMutation))
  (statuses : list grpc.Status) : list nat :=
  match pending, statuses with
  | (index, _) :: pending', s :: statuses' =>
    if grpc.ok s then index :: succeeded_entries pending' statuses'
    else succeeded_entries pending' statuses'
  | _, _ => []
  end.

Definition BulkMutator_request (m : BulkMutator) : MutateRowsRequest :=
  {| mrs_table_name := bm_table_name m;
     mrs_app_profile_id := bm_app_profile_id m;
     mrs_entries := map snd (bm_pending m) |}.

(** Modelled from the spec: one round sends "a single batched request
    containing exactly the currently pending entries" and sorts the entries
    by the statuses that come back; when the call failed outright the
    entries stay as they are and the failure is the status of the round. *)
Definition BulkMutator_MakeOneRequest (m : BulkMutator) (client : C)
  (client_context : ClientContext) : grpc.Status * BulkMutator * C :=
  let (result, client') :=
    MutateRows client client_context (BulkMutator_request m) in
  match result with
  | TransportFailure s =>
    (s,
     {| bm_app_profile_id := bm_app_profile_id m;
        bm_table_name := bm_table_name m;
        bm_idempotent_policy := bm_idempotent_policy m;
        bm_pending := bm_pending m;
        bm_failures := bm_failures m;
        bm_last_status := s |},
     client')
  | EntryStatuses statuses =>
    let (still, failures) :=
      process_entries (bm_idempotent_policy m) (bm_pending m) statuses in
    (grpc_Status_OK,
     {| bm_app_profile_id := bm_app_profile_id m;
        bm_table_name := bm_table_name m;
        bm_idempotent_policy := bm_idempotent_policy m;
        bm_pending := still;
        bm_failures := bm_failures m ++ failures;
        bm_last_status := grpc_Status_OK |},
     client')
  end.

Definition BulkMutator_HasPendingMutations (m : BulkMutator) : bool :=
  match bm_pending m with [] => false | _ :: _ => true end.

(** Modelled from the spec: when the loop is over, "all still-pending
    entries" count "as failed with that status", the status of the last
    request, after the failures gathered so far. *)
Definition BulkMutator_ExtractFinalFailures (m : BulkMutator)
  : list FailedMutation :=
  bm_failures m ++
  map (fun e => {| original_index := fst e; status := bm_last_status m |})
      (bm_pending m).

#[export] Instance BulkMutator_ops : BulkMutatorOps C I BulkMutator :=
  {| BulkMutator_new := BulkMutator_make;
     HasPendingMutations := BulkMutator_HasPendingMutations;
     MakeOneRequest := BulkMutator_MakeOneRequest;
     ExtractFinalFailures := BulkMutator_ExtractFinalFailures |}.

(** The original indices the mutator still answers for. *)
Definition tracked (m : BulkMutator) : list nat :=
  map original_index (bm_failures m) ++ map fst (bm_pending m).

(** The original indices that the round made from the state [st] reports
    as done. *)
Definition round_successes {R B MD : Type} `{RPCRetryPolicy R}
  `{RPCBackoffPolicy B} `{MetadataUpdatePolicy MD}
  (md : MD) (st : @BulkState C R B BulkMutator) : list nat :=
  let client_context :=
    BulkApply_context md (bs_backoff_policy st) (bs_retry_policy st) in
  match fst (MutateRows (bs_client st) client_context
               (BulkMutator_request (bs_mutator st))) with
  | EntryStatuses statuses =>
      succeeded_entries (bm_pending (bs_mutator st)) statuses
  | TransportFailure _ => []
  end.

End BulkMutatorModel.

End Bigtable.

Arguments SingleRowMutation : clear implicits.
Arguments BulkMutation : clear implicits.
Arguments MutateRowRequest : clear implicits.
Arguments MutateRowsRequest : clear implicits.
Arguments Row : clear implicits.
Arguments RowReader : clear implicits.
Arguments BulkState : clear implicits.
Arguments BulkRound : clear implicits.
Arguments BulkMutator : clear implicits.
Arguments ClientContextOps : clear implicits.
Arguments RowSetOps : clear implicits.
Arguments RPCRetryPolicy : clear implicits.
Arguments RPCBackoffPolicy : clear implicits.
Arguments IdempotentMutationPolicy : clear implicits.
Arguments MetadataUpdatePolicy : clear implicits.
Arguments DataClient : clear implicits.
Arguments BulkMutatorOps : clear implicits.
Arguments RowReaderOps : clear implicits.

(** ** Collaborators to run the operations with

    A scripted client and simple policies, for running the operations on
    concrete inputs. *)

(** Mutations as the data model of the spec has them; [SetCell] says
    whether the server is to pick the timestamp. *)
Inductive ex_Mutation : Type :=
| SetCell (server_timestamp : bool)
| DeleteCell
| DeleteRow.

(** A client that answers from scripts: one status for each [MutateRow],
    one result for each [MutateRows], one element for each step of a
    reader. *)
Record ScriptedClient : Type :=
  { sc_rows : list grpc.Status;
    sc_bulk : list MutateRowsResult;
    sc_reads : list (StatusOr (Row string)) }.

Definition ex_status (c : grpc.StatusCode) : grpc.Status :=
  {| grpc.error_code := c; grpc.error_message := "" |}.

#[export] Instance ex_ClientContextOps : ClientContextOps unit :=
  {| ClientContext_new := tt |}.

#[export] Instance ex_RowSetOps : RowSetOps string :=
  {| RowSet_of_key := fun key => key |}.

#[export] Instance ScriptedClient_DataClient
  : DataClient ex_Mutation unit ScriptedClient :=
  {| MutateRow := fun c _ _ =>
       match sc_rows c with
       | s :: rest =>
           (s, {| sc_rows := rest; sc_bulk := sc_bulk c;
                  sc_reads := sc_reads c |})
       | [] => (ex_status grpc.OK, c)
       end;
     MutateRows := fun c _ _ =>
       match sc_bulk c with
       | r :: rest =>
           (r, {| sc_rows := sc_rows c; sc_bulk := rest;
                  sc_reads := sc_reads c |})
       | [] => (TransportFailure (ex_status grpc.UNAVAILABLE), c)
       end |}.

(** A backoff policy that doubles its delay at every completion. *)
#[export] Instance ex_backoff : RPCBackoffPolicy unit Z :=
  {| backoff_clone := fun b => b;
     backoff_Setup := fun _ ctx => ctx;
     OnCompletion := fun b _ => (b, (2 * b)%Z) |}.

(** Setting a cell with a timestamp that the server picks is not safe to
    replay; everything else is. *)
#[export] Instance ex_idempotency : IdempotentMutationPolicy ex_Mutation unit :=
  {| idempotent_clone := fun i => i;
     is_idempotent := fun _ m =>
       match m with SetCell true => false | _ => true end |}.

#[export] Instance ex_metadata : MetadataUpdatePolicy unit unit :=
  {| metadata_Setup := fun _ ctx => ctx |}.

(** A reader that hands out what the script of its client holds. *)
#[export] Instance ex_reader
  : RowReaderOps unit string string ScriptedClient BoundedRetryPolicy Z unit :=
  {| NO_ROWS_LIMIT := 0%Z;
     RowReader_next := fun reader =>
       let c := rr_client reader in
       match sc_reads c with
       | [] => (None, reader)
       | e :: rest =>
         (Some e,
          {| rr_client := {| sc_rows := sc_rows c; sc_bulk := sc_bulk c;
                             sc_reads := rest |};
             rr_app_profile_id := rr_app_profile_id reader;
             rr_table_name := rr_table_name reader;
             rr_row_set := rr_row_set reader;
             rr_rows_limit := rr_rows_limit reader;
             rr_filter := rr_filter reader;
             rr_retry_policy := rr_retry_policy reader;
             rr_backoff_policy := rr_backoff_policy reader;
             rr_metadata_update_policy :=
               rr_metadata_update_policy reader |})
       end |}.

Definition ex_transient (c : grpc.StatusCode) : bool :=
  match c with
  | grpc.UNAVAILABLE | grpc.DEADLINE_EXCEEDED | grpc.ABORTED => true
  | _ => false
  end.

Definition ex_Table : Type :=
  Table ScriptedClient BoundedRetryPolicy Z unit unit.

(** A table whose retry policy allows [bound] attempts and whose client
    follows the given scripts. *)
Definition ex_table (bound : nat) (rows : list grpc.Status)
  (bulk : list MutateRowsResult) (reads : list (StatusOr (Row string)))
  : ex_Table :=
  {| client_ := {| sc_rows := rows; sc_bulk := bulk; sc_reads := reads |};
     app_profile_id_ := "profile";
     table_name_ := "table";
     rpc_retry_policy_ :=
       {| brp_transient := ex_transient; brp_bound := bound;
          brp_attempts := 0 |};
     rpc_backoff_policy_ := 10%Z;
     metadata_update_policy_ := tt;
     idempotent_mutation_policy_ := tt |}.

Definition ex_mutation (ops : list ex_Mutation)
  : SingleRowMutation ex_Mutation :=
  {| srm_row_key := "row"; srm_ops := ops |}.

Definition ex_unavailable : grpc.Status := ex_status grpc.UNAVAILABLE.
Definition ex_ok : grpc.Status := ex_status grpc.OK.

(** A bulk mutation of one idempotent entry, answered first with a
    retryable failure of that entry and then with a failure of the whole
    request, under a retry policy bounded to one attempt. *)
Definition ex_bulk_table : ex_Table :=
  ex_table 1 []
    [EntryStatuses [ex_unavailable]; TransportFailure ex_unavailable] [].

Definition ex_bulk_mutation : BulkMutation ex_Mutation :=
  [ex_mutation [DeleteCell]].

(** Two entries, the second not idempotent: both fail in the first round,
    the first is done in the second round. *)
Definition ex_partial_table : ex_Table :=
  ex_table 3 []
    [EntryStatuses [ex_unavailable; ex_unavailable]; EntryStatuses [ex_ok]]
    [].

Definition ex_partial_mutation : BulkMutation ex_Mutation :=
  [ex_mutation [DeleteCell]; ex_mutation [SetCell true]].

Definition ex_row : Row string :=
  {| row_row_key := "row"; row_cells := ["cell"] |}.

(** * Properties of the operations *)

Section ApplyProperties.

Context {Mutation ClientContext : Type}.
Context {cc_ops : ClientContextOps ClientContext}.
Context {C R B I MD : Type}.
Context {data_client : DataClient Mutation ClientContext C}.
Context {retry_policy : RPCRetryPolicy ClientContext R}.
Context {backoff_policy : RPCBackoffPolicy ClientContext B}.
Context {idempotency_policy : IdempotentMutationPolicy Mutation I}.
Context {metadata_policy : MetadataUpdatePolicy ClientContext MD}.

Implicit Types (t : Table C R B I MD) (mut : SingleRowMutation Mutation).
Implicit Types (s status : grpc.Status) (ss : list grpc.Status).

(** What the loop does with the outcome of the attempt it starts with. *)
Lemma Apply_loop_ok fuel md request is_idem client r b status client' :
  MutateRow client (Apply_context md r b) request = (status, client') ->
  grpc.ok status = true ->
  Apply_loop (S fuel) md request is_idem client r b
  = Some (Status_default, client', [EvRpc status]).
Proof.
  intros Hcall Hok. simpl. rewrite Hcall, Hok. reflexivity.
Qed.

Lemma Apply_loop_permanent fuel md request is_idem client r b status client' :
  MutateRow client (Apply_context md r b) request = (status, client') ->
  grpc.ok status = false ->
  is_idem = false \/ fst (OnFailure r status) = false ->
  Apply_loop (S fuel) md request is_idem client r b
  = Some (MakeStatusFromRpcError (grpc.error_code status) Apply_error_message,
          client', [EvRpc status]).
Proof.
  intros Hcall Hok Hstop. simpl. rewrite Hcall, Hok.
  destruct (OnFailure r status) as [again r'] eqn:Hfail. simpl in Hstop.
  destruct Hstop as [-> | ->].
  - rewrite orb_true_r. reflexivity.
  - reflexivity.
Qed.

Lemma Apply_loop_retry fuel md request client r b status client' :
  MutateRow client (Apply_context md r b) request = (status, client') ->
  grpc.ok status = false ->
  fst (OnFailure r status) = true ->
  Apply_loop (S fuel) md request true client r b
  = match Apply_loop fuel md request true client'
            (snd (OnFailure r status)) (snd (OnCompletion b status)) with
    | Some (result, client'', tr) =>
        Some (result, client'',
              EvRpc status :: EvSleep (fst (OnCompletion b status)) :: tr)
    | None => None
    end.
Proof.
  intros Hcall Hok Hagain. simpl. rewrite Hcall, Hok.
  destruct (OnFailure r status) as [again r'] eqn:Hfail. simpl in *.
  subst again. simpl.
  destruct (OnCompletion b status) as [delay b']. reflexivity.
Qed.

(** The first answer of a client that answers [s :: ss]. *)
Lemma MutateRow_answers_cons client request s ss ctx :
  MutateRow_answers client request (s :: ss) ->
  exists client',
    MutateRow client ctx request = (s, client') /\
    MutateRow_answers client' request ss.
Proof.
  intros Hans. destruct (Hans ctx) as [Hs Hrest].
  exists (snd (MutateRow client ctx request)). split; [|exact Hrest].
  rewrite <- Hs. apply surjective_pairing.
Qed.

Lemma rpc_attempts_retry status delay tr :
  rpc_attempts (EvRpc status :: EvSleep delay :: tr) = S (rpc_attempts tr).
Proof. reflexivity. Qed.

(** Failures that the retry policy accepts, then a success: the loop of an
    idempotent request returns OK after one more attempt than there were
    failures. *)
Lemma Apply_loop_succeeds_after ss :
  forall fuel md request client r b s_ok,
    MutateRow_answers client request (ss ++ [s_ok]) ->
    Forall failed ss ->
    grpc.ok s_ok = true ->
    retry_accepts r ss = true ->
    List.length ss < fuel ->
    exists client' tr,
      Apply_loop fuel md request true client r b
      = Some (Status_default, client', tr) /\
      rpc_attempts tr = S (List.length ss).
Proof.
  induction ss as [|s ss IH]; intros fuel md request client r b s_ok
    Hans Hfailed Hok Hacc Hfuel;
    (destruct fuel as [|fuel]; [simpl in Hfuel; lia|]).
  - destruct (MutateRow_answers_cons (Apply_context md r b) Hans)
      as (client' & Hcall & _).
    exists client', [EvRpc s_ok]. split; [|reflexivity].
    now apply Apply_loop_ok.
  - destruct (MutateRow_answers_cons (Apply_context md r b) Hans)
      as (client' & Hcall & Hrest).
    inversion Hfailed as [|? ? Hs Hfailed']; subst.
    simpl in Hacc. destruct (OnFailure r s) as [again r'] eqn:Hfail.
    apply andb_true_iff in Hacc as [-> Hacc].
    destruct (IH fuel md request client' r' (snd (OnCompletion b s)) s_ok)
      as (client'' & tr & Hloop & Hcount); auto.
    { simpl in Hfuel. lia. }
    exists client'', (EvRpc s :: EvSleep (fst (OnCompletion b s)) :: tr).
    split.
    + rewrite (Apply_loop_retry fuel md request client r b Hcall Hs).
      * rewrite Hfail. simpl. rewrite Hloop. reflexivity.
      * rewrite Hfail. reflexivity.
    + rewrite rpc_attempts_retry, Hcount. reflexivity.
Qed.

(** Failures up to the one at which the retry policy gives up: the loop of
    an idempotent request returns the error of the last failure after as
    many attempts as there were failures. *)
Lemma Apply_loop_exhausted ss :
  forall fuel md request client r b d,
    MutateRow_answers client request ss ->
    Forall failed ss ->
    retry_gives_up_at r ss = true ->
    List.length ss <= fuel ->
    exists client' tr,
      Apply_loop fuel md request true client r b
      = Some (MakeStatusFromRpcError (grpc.error_code (last ss d))
                Apply_error_message, client', tr) /\
      rpc_attempts tr = List.length ss.
Proof.
  induction ss as [|s ss IH]; intros fuel md request client r b d
    Hans Hfailed Hgive Hfuel; [discriminate|].
  destruct fuel as [|fuel]; [simpl in Hfuel; lia|].
  destruct (MutateRow_answers_cons (Apply_context md r b) Hans)
    as (client' & Hcall & Hrest).
  inversion Hfailed as [|? ? Hs Hfailed']; subst.
  simpl in Hgive. destruct (OnFailure r s) as [again r'] eqn:Hfail.
  destruct ss as [|s2 ss].
  - exists client', [EvRpc s]. split; [|reflexivity].
    apply Apply_loop_permanent; auto. right. rewrite Hfail. simpl.
    now apply negb_true_iff.
  - apply andb_true_iff in Hgive as [-> Hgive].
    destruct (IH fuel md request client' r' (snd (OnCompletion b s)) d)
      as (client'' & tr & Hloop & Hcount); auto.
    { simpl in Hfuel |- *. lia. }
    exists client'', (EvRpc s :: EvSleep (fst (OnCompletion b s)) :: tr).
    split.
    + rewrite (Apply_loop_retry fuel md request client r b Hcall Hs).
      * rewrite Hfail. simpl. rewrite Hloop. reflexivity.
      * rewrite Hfail. reflexivity.
    + rewrite rpc_attempts_retry, Hcount. reflexivity.
Qed.

(** C1.  [Apply] takes the request for idempotent exactly when every
    mutation of the request it built is idempotent for the (cloned)
    idempotency policy, and runs its loop on the request, the client and
    the clones of the retry and backoff policies.  Whatever state the loop
    is in, the attempt it makes decides as follows: an attempt that
    succeeds ends the loop with the OK status; an attempt that fails, when
    the request is not idempotent or the retry policy rejects another
    attempt, ends the loop with the permanent error made from the code of
    the failure; any other failed attempt is followed by a wait of the
    delay that the backoff policy computes, and the loop goes on with the
    next attempt. *)
Theorem C1_Apply_decides_by_idempotency_and_retry_policy t mut :
  (Apply_is_idempotent t mut = true <->
   Forall (fun m =>
             is_idempotent (idempotent_clone (idempotent_mutation_policy_ t)) m
             = true)
          (mutations (Apply_request t mut)))
  /\ (forall fuel,
        Apply fuel t mut
        = match Apply_loop fuel (metadata_update_policy_ t)
                  (Apply_request t mut) (Apply_is_idempotent t mut)
                  (client_ t) (retry_clone (rpc_retry_policy_ t))
                  (backoff_clone (rpc_backoff_policy_ t)) with
          | Some (result, client', tr) =>
              Some (result, set_client t client', tr)
          | None => None
          end)
  /\ (forall fuel md request is_idem client r b status client',
        MutateRow client (Apply_context md r b) request = (status, client') ->
        (grpc.ok status = true ->
         Apply_loop (S fuel) md request is_idem client r b
         = Some (Status_default, client', [EvRpc status]))
        /\ (grpc.ok status = false ->
            is_idem = false \/ fst (OnFailure r status) = false ->
            Apply_loop (S fuel) md request is_idem client r b
            = Some (MakeStatusFromRpcError (grpc.error_code status)
                      Apply_error_message, client', [EvRpc status])
            /\ code (MakeStatusFromRpcError (grpc.error_code status)
                       Apply_error_message)
               = MapStatusCode (grpc.error_code status))
        /\ (grpc.ok status = false ->
            is_idem = true -> fst (OnFailure r status) = true ->
            Apply_loop (S fuel) md request is_idem client r b
            = match Apply_loop fuel md request is_idem client'
                      (snd (OnFailure r status))
                      (snd (OnCompletion b status)) with
              | Some (result, client'', tr) =>
                  Some (result, client'',
                        EvRpc status
                        :: EvSleep (fst (OnCompletion b status)) :: tr)
              | None => None
              end)).
Proof.
  split; [|split].
  - unfold Apply_is_idempotent. rewrite forallb_forall, Forall_forall.
    reflexivity.
  - reflexivity.
  - intros fuel md request is_idem client r b status client' Hcall.
    split; [|split].
    + intros Hok. now apply Apply_loop_ok.
    + intros Hok Hstop. split; [|reflexivity].
      now apply Apply_loop_permanent.
    + intros Hok -> Hagain. now apply Apply_loop_retry.
Qed.

(** C5.  An idempotent mutation, [k] attempts that fail and that the
    retry policy lets be retried (the policy, shown the [k] failures in
    turn, allows another attempt after each: [k] is below its bound), then
    an attempt that succeeds: [Apply] returns OK, and has made exactly
    [k + 1] attempts. *)
Theorem C5_Apply_succeeds_after_k_transient_failures
  t mut (k : nat) ss s_ok fuel :
  Apply_is_idempotent t mut = true ->
  List.length ss = k ->
  MutateRow_answers (client_ t) (Apply_request t mut) (ss ++ [s_ok]) ->
  Forall failed ss ->
  grpc.ok s_ok = true ->
  retry_accepts (retry_clone (rpc_retry_policy_ t)) ss = true ->
  k < fuel ->
  exists t' tr,
    Apply fuel t mut = Some (Status_default, t', tr) /\
    rpc_attempts tr = k + 1.
Proof.
  intros Hidem Hk Hans Hfailed Hok Hacc Hfuel. subst k.
  destruct (@Apply_loop_succeeds_after ss fuel
              (metadata_update_policy_ t) (Apply_request t mut) (client_ t)
              (retry_clone (rpc_retry_policy_ t))
              (backoff_clone (rpc_backoff_policy_ t)) s_ok Hans Hfailed Hok
              Hacc Hfuel)
    as (client' & tr & Hloop & Hcount).
  exists (set_client t client'), tr. split.
  - unfold Apply. rewrite Hidem, Hloop. reflexivity.
  - rewrite Hcount. lia.
Qed.

(** C6.  An idempotent mutation whose attempts all fail, with a retry
    policy whose bound is [n] attempts (shown the failures in turn it
    allows another attempt after each of the first [n - 1] and gives up at
    the [n]-th): [Apply] returns, with the permanent error made from the
    last failure, after exactly [n] attempts. *)
Theorem C6_Apply_terminates_at_the_bound t mut (n : nat) ss d fuel :
  Apply_is_idempotent t mut = true ->
  List.length ss = n ->
  MutateRow_answers (client_ t) (Apply_request t mut) ss ->
  Forall failed ss ->
  retry_gives_up_at (retry_clone (rpc_retry_policy_ t)) ss = true ->
  n <= fuel ->
  exists t' tr,
    Apply fuel t mut
    = Some (MakeStatusFromRpcError (grpc.error_code (last ss d))
              Apply_error_message, t', tr) /\
    rpc_attempts tr = n.
Proof.
  intros Hidem Hn Hans Hfailed Hgive Hfuel. subst n.
  destruct (@Apply_loop_exhausted ss fuel
              (metadata_update_policy_ t) (Apply_request t mut) (client_ t)
              (retry_clone (rpc_retry_policy_ t))
              (backoff_clone (rpc_backoff_policy_ t)) d Hans Hfailed Hgive
              Hfuel)
    as (client' & tr & Hloop & Hcount).
  exists (set_client t client'), tr. split; [|exact Hcount].
  unfold Apply. rewrite Hidem, Hloop. reflexivity.
Qed.

(** C10.  A [SingleRowMutation] with no mutation is idempotent for
    [Apply]; when its first attempt fails and the retry policy allows
    another attempt, [Apply] does not return the permanent error: it waits
    the backoff delay and goes on with the next attempt. *)
Theorem C10_Apply_retries_an_empty_mutation t mut fuel status client' :
  srm_ops mut = [] ->
  MutateRow (client_ t)
    (Apply_context (metadata_update_policy_ t)
       (retry_clone (rpc_retry_policy_ t))
       (backoff_clone (rpc_backoff_policy_ t)))
    (Apply_request t mut) = (status, client') ->
  grpc.ok status = false ->
  fst (OnFailure (retry_clone (rpc_retry_policy_ t)) status) = true ->
  Apply_is_idempotent t mut = true /\
  Apply (S fuel) t mut
  = match Apply_loop fuel (metadata_update_policy_ t) (Apply_request t mut)
            true client'
            (snd (OnFailure (retry_clone (rpc_retry_policy_ t)) status))
            (snd (OnCompletion (backoff_clone (rpc_backoff_policy_ t))
                    status)) with
    | Some (result, client'', tr) =>
        Some (result, set_client t client'',
              EvRpc status
              :: EvSleep (fst (OnCompletion
                                 (backoff_clone (rpc_backoff_policy_ t))
                                 status)) :: tr)
    | None => None
    end.
Proof.
  intros Hempty Hcall Hok Hagain.
  assert (Hidem : Apply_is_idempotent t mut = true).
  { unfold Apply_is_idempotent, Apply_request, MoveTo. simpl.
    rewrite Hempty. reflexivity. }
  split; [exact Hidem|].
  unfold Apply. rewrite Hidem.
  rewrite (Apply_loop_retry fuel _ _ _ _ _ Hcall Hok Hagain).
  destruct (Apply_loop fuel _ _ true client' _ _) as [[[result c] tr]|];
    reflexivity.
Qed.

End ApplyProperties.

Section BulkApplyProperties.

Context {Mutation ClientContext : Type}.
Context {cc_ops : ClientContextOps ClientContext}.
Context {C R B I MD M : Type}.
Context {data_client : DataClient Mutation ClientContext C}.
Context {retry_policy : RPCRetryPolicy ClientContext R}.
Context {backoff_policy : RPCBackoffPolicy ClientContext B}.
Context {idempotency_policy : IdempotentMutationPolicy Mutation I}.
Context {metadata_policy : MetadataUpdatePolicy ClientContext MD}.
Context {mutator_ops : BulkMutatorOps Mutation ClientContext C I M}.

Implicit Types (t : Table C R B I MD) (mut : BulkMutation Mutation).
Implicit Types (st fin : BulkState C R B M) (md : MD).

(** The two ways out of the loop body. *)
Lemma BulkApply_round_cases md st :
  (grpc.ok (round_status md st) = false /\
   fst (OnFailure (bs_retry_policy st) (round_status md st)) = false /\
   exists st', BulkApply_round md st = RoundBreak st' (round_status md st))
  \/
  ((grpc.ok (round_status md st) = true \/
    fst (OnFailure (bs_retry_policy st) (round_status md st)) = true) /\
   exists st',
     BulkApply_round md st
     = RoundNext st' (round_status md st)
         (fst (OnCompletion (bs_backoff_policy st) (round_status md st))) /\
     bs_backoff_policy st'
     = snd (OnCompletion (bs_backoff_policy st) (round_status md st))).
Proof.
  unfold round_status, BulkApply_round.
  destruct (MakeOneRequest _ _ _) as [[status mutator'] client']. simpl.
  destruct (grpc.ok status) eqn:Hok.
  - right. split; [now left|].
    destruct (OnCompletion (bs_backoff_policy st) status) as [delay b'].
    eexists. split; reflexivity.
  - destruct (OnFailure (bs_retry_policy st) status) as [again r']. simpl.
    destruct again; simpl.
    + right. split; [now right|].
      destruct (OnCompletion (bs_backoff_policy st) status) as [delay b'].
      eexists. split; reflexivity.
    + left. split; [reflexivity|]. split; [reflexivity|].
      eexists. reflexivity.
Qed.

Lemma BulkApply_stops_break md st st' status :
  HasPendingMutations (bs_mutator st) = true ->
  BulkApply_round md st = RoundBreak st' status ->
  BulkApply_stops md st = true.
Proof.
  intros Hpending Hround. unfold BulkApply_stops. rewrite Hpending. simpl.
  destruct (BulkApply_round_cases md st)
    as [(Hok & Hrej & _) | (_ & st2 & Hnext & _)].
  - rewrite Hok, Hrej. reflexivity.
  - rewrite Hround in Hnext. discriminate.
Qed.

Lemma BulkApply_stops_next md st st' status delay :
  HasPendingMutations (bs_mutator st) = true ->
  BulkApply_round md st = RoundNext st' status delay ->
  BulkApply_stops md st = false.
Proof.
  intros Hpending Hround. unfold BulkApply_stops. rewrite Hpending. simpl.
  destruct (BulkApply_round_cases md st)
    as [(_ & _ & st2 & Hbreak) | (Hgo & _)].
  - rewrite Hround in Hbreak. discriminate.
  - destruct Hgo as [-> | ->]; [reflexivity|].
    apply andb_false_r.
Qed.

(** The loop returns exactly when, after some number of full rounds within
    the fuel, it is at a state where it stops. *)
Lemma BulkApply_loop_returns_iff fuel :
  forall md st,
    (exists fin tr, BulkApply_loop fuel md st = Some (fin, tr)) <->
    (exists n st_n,
        n < fuel /\
        BulkApply_state_after n md st = Some st_n /\
        BulkApply_stops md st_n = true).
Proof.
  induction fuel as [|fuel IH]; intros md st.
  - split.
    + intros (fin & tr & Hloop). discriminate.
    + intros (n & st_n & Hn & _). lia.
  - split.
    + intros (fin & tr & Hloop). simpl in Hloop.
      destruct (HasPendingMutations (bs_mutator st)) eqn:Hpending.
      * destruct (BulkApply_round md st) as [st' status|st' status delay]
          eqn:Hround.
        -- exists 0, st. split; [lia|]. split; [reflexivity|].
           eapply BulkApply_stops_break; eauto.
        -- destruct (BulkApply_loop fuel md st') as [[fin' tr']|] eqn:Hrest;
             [|discriminate].
           destruct (proj1 (IH md st')) as (n & st_n & Hn & Hafter & Hstop);
             [eauto|].
           exists (S n), st_n. split; [lia|]. split; [|exact Hstop].
           simpl. rewrite Hpending, Hround. exact Hafter.
      * exists 0, st. split; [lia|]. split; [reflexivity|].
        unfold BulkApply_stops. rewrite Hpending. reflexivity.
    + intros (n & st_n & Hn & Hafter & Hstop). simpl.
      destruct n as [|n].
      * injection Hafter as <-.
        destruct (HasPendingMutations (bs_mutator st)) eqn:Hpending;
          [|eauto].
        destruct (BulkApply_round md st) as [st' status|st' status delay]
          eqn:Hround; [eauto|].
        rewrite (BulkApply_stops_next md st Hpending Hround) in Hstop.
        discriminate.
      * simpl in Hafter.
        destruct (HasPendingMutations (bs_mutator st)); [|discriminate].
        destruct (BulkApply_round md st) as [st' status|st' status delay];
          [discriminate|].
        destruct (proj2 (IH md st')) as (fin & tr & Hloop).
        { exists n, st_n. split; [lia|]. split; assumption. }
        rewrite Hloop. eauto.
Qed.

(** Whichever way a round ends, the mutator it leaves is the one that
    [MakeOneRequest] answered. *)
Lemma BulkApply_round_mutator md st :
  match BulkApply_round md st with
  | RoundBreak st' _ | RoundNext st' _ _ =>
    bs_mutator st'
    = snd (fst (MakeOneRequest (bs_mutator st) (bs_client st)
                  (BulkApply_context md (bs_backoff_policy st)
                     (bs_retry_policy st))))
  end.
Proof.
  unfold BulkApply_round.
  destruct (MakeOneRequest _ _ _) as [[status mutator'] client']. simpl.
  destruct (grpc.ok status).
  - destruct (OnCompletion _ _). reflexivity.
  - destruct (OnFailure _ _) as [[|] r']; simpl.
    + destruct (OnCompletion _ _). reflexivity.
    + reflexivity.
Qed.

(** A run that is over went through every state that the loop reaches
    after full rounds. *)
Lemma BulkApply_loop_from_state_after n :
  forall fuel md st st_n fin tr,
    BulkApply_loop fuel md st = Some (fin, tr) ->
    BulkApply_state_after n md st = Some st_n ->
    exists fuel' tr', BulkApply_loop fuel' md st_n = Some (fin, tr').
Proof.
  induction n as [|n IH]; intros fuel md st st_n fin tr Hloop Hafter.
  - injection Hafter as <-. eauto.
  - destruct fuel as [|fuel]; [discriminate|]. simpl in Hloop, Hafter.
    destruct (HasPendingMutations (bs_mutator st)); [|discriminate].
    destruct (BulkApply_round md st) as [st' status|st' status delay];
      [discriminate|].
    destruct (BulkApply_loop fuel md st') as [[fin' tr']|] eqn:Hrest;
      [|discriminate].
    injection Hloop as <- _. eapply IH; eauto.
Qed.

(** The loop makes the rounds that the spec tells, and no others. *)
Lemma BulkApply_loop_sound fuel :
  forall md st fin tr,
    BulkApply_loop fuel md st = Some (fin, tr) ->
    BulkApply_run md st tr fin.
Proof.
  induction fuel as [|fuel IH]; intros md st fin tr Hloop; [discriminate|].
  cbn [BulkApply_loop] in Hloop.
  destruct (HasPendingMutations (bs_mutator st)) eqn:Hpending.
  - unfold BulkApply_round in Hloop.
    destruct (MakeOneRequest _ _ _) as [[status mutator'] client'] eqn:Hreq.
    destruct (grpc.ok status) eqn:Hok.
    + destruct (OnCompletion (bs_backoff_policy st) status)
        as [delay b'] eqn:Hdelay.
      cbn [negb] in Hloop.
      destruct (BulkApply_loop fuel md _) as [[fin' tr']|] eqn:Hrest;
        [|discriminate].
      injection Hloop as <- <-.
      eapply run_round_succeeded; eauto.
    + destruct (OnFailure (bs_retry_policy st) status) as [again r']
        eqn:Hfail.
      destruct again; cbn [negb] in Hloop.
      * destruct (OnCompletion (bs_backoff_policy st) status)
          as [delay b'] eqn:Hdelay.
        destruct (BulkApply_loop fuel md _) as [[fin' tr']|] eqn:Hrest;
          [|discriminate].
        injection Hloop as <- <-.
        eapply run_round_retried; eauto.
      * injection Hloop as <- <-.
        eapply run_refused; eauto.
  - injection Hloop as <- <-. now apply run_nothing_pending.
Qed.

(** With fuel for its rounds the loop returns what the rounds end in. *)
Lemma BulkApply_loop_complete md st tr fin :
  BulkApply_run md st tr fin ->
  forall fuel,
    rpc_attempts tr < fuel ->
    BulkApply_loop fuel md st = Some (fin, tr).
Proof.
  induction 1 as [st Hpending
                 | st status mutator' client' r' Hpending Hreq Hok Hfail
                 | st status mutator' client' delay b' tr fin
                     Hpending Hreq Hok Hdelay Hrun IH
                 | st status mutator' client' r' delay b' tr fin
                     Hpending Hreq Hok Hfail Hdelay Hrun IH];
    intros fuel Hfuel; (destruct fuel as [|fuel]; [lia|]);
    cbn [BulkApply_loop]; rewrite Hpending; [reflexivity | | |];
    unfold BulkApply_round; rewrite Hreq, Hok.
  - rewrite Hfail. reflexivity.
  - rewrite Hdelay. cbn [negb]. rewrite IH; [reflexivity|].
    change (rpc_attempts (EvRpc status :: EvSleep delay :: tr))
      with (S (rpc_attempts tr)) in Hfuel. lia.
  - rewrite Hfail. cbn [negb]. rewrite Hdelay. rewrite IH; [reflexivity|].
    change (rpc_attempts (EvRpc status :: EvSleep delay :: tr))
      with (S (rpc_attempts tr)) in Hfuel. lia.
Qed.

(** C2.  [BulkApply] has no error to raise: what it returns is the list of
    failures that the mutator hands over when the loop is over.  It returns
    exactly when, after some number of full rounds, the loop is at a state
    where no mutation is pending or where the request of the round fails as
    a whole and the retry policy refuses another attempt.  What it returns
    is tied to the rounds made: starting from the new mutator, the client
    of the table and the clones of the policies, the rounds go as the spec
    tells them ([BulkApply_run]), the list returned is the one that the
    mutator left by the last round hands over, the client left in the
    table is the client after the last round, and the trace is that of
    the rounds; and whenever the rounds come to an end, [BulkApply] with
    fuel for them returns just that. *)
Theorem C2_BulkApply_returns_failures_when_loop_stops t mut fuel :
  BulkApply fuel t mut
  = match BulkApply_loop fuel (metadata_update_policy_ t)
            (BulkApply_init t mut) with
    | Some (fin, tr) =>
        Some (ExtractFinalFailures (bs_mutator fin),
              set_client t (bs_client fin), tr)
    | None => None
    end
  /\ ((exists failures t' tr,
         BulkApply fuel t mut = Some (failures, t', tr)) <->
      (exists n st_n,
          n < fuel /\
          BulkApply_state_after n (metadata_update_policy_ t)
            (BulkApply_init t mut) = Some st_n /\
          BulkApply_stops (metadata_update_policy_ t) st_n = true))
  /\ (forall failures t' tr,
        BulkApply fuel t mut = Some (failures, t', tr) ->
        exists fin,
          BulkApply_run (metadata_update_policy_ t)
            {| bs_mutator :=
                 BulkMutator_new (app_profile_id_ t) (table_name_ t)
                   (idempotent_clone (idempotent_mutation_policy_ t)) mut;
               bs_client := client_ t;
               bs_retry_policy := retry_clone (rpc_retry_policy_ t);
               bs_backoff_policy := backoff_clone (rpc_backoff_policy_ t) |}
            tr fin /\
          failures = ExtractFinalFailures (bs_mutator fin) /\
          t' = set_client t (bs_client fin))
  /\ (forall tr fin,
        BulkApply_run (metadata_update_policy_ t)
          {| bs_mutator :=
               BulkMutator_new (app_profile_id_ t) (table_name_ t)
                 (idempotent_clone (idempotent_mutation_policy_ t)) mut;
             bs_client := client_ t;
             bs_retry_policy := retry_clone (rpc_retry_policy_ t);
             bs_backoff_policy := backoff_clone (rpc_backoff_policy_ t) |}
          tr fin ->
        rpc_attempts tr < fuel ->
        BulkApply fuel t mut
        = Some (ExtractFinalFailures (bs_mutator fin),
                set_client t (bs_client fin), tr)).
Proof.
  split; [reflexivity|]. split; [|split].
  - rewrite <- BulkApply_loop_returns_iff. unfold BulkApply.
    destruct (BulkApply_loop fuel _ _) as [[fin tr]|].
    + split; intros _; eauto.
    + split.
      * intros (failures & t' & tr & Habs). discriminate.
      * intros (fin & tr & Habs). discriminate.
  - intros failures t' tr Hrun. unfold BulkApply in Hrun.
    destruct (BulkApply_loop fuel _ _) as [[fin tr0]|] eqn:Hloop;
      [|discriminate].
    injection Hrun as <- <- <-.
    exists fin. split; [|split; reflexivity].
    apply BulkApply_loop_sound in Hloop. exact Hloop.
  - intros tr fin Hrun Hfuel. unfold BulkApply.
    change (BulkApply_init t mut)
      with {| bs_mutator :=
                BulkMutator_new (app_profile_id_ t) (table_name_ t)
                  (idempotent_clone (idempotent_mutation_policy_ t)) mut;
              bs_client := client_ t;
              bs_retry_policy := retry_clone (rpc_retry_policy_ t);
              bs_backoff_policy := backoff_clone (rpc_backoff_policy_ t) |}.
    rewrite (BulkApply_loop_complete Hrun Hfuel). reflexivity.
Qed.

(** The trace of a run that is over. *)
Lemma BulkApply_loop_trace fuel :
  forall md st fin tr,
    BulkApply_loop fuel md st = Some (fin, tr) ->
    rounds_separated_by_backoff (bs_backoff_policy st) tr.
Proof.
  induction fuel as [|fuel IH]; intros md st fin tr Hloop; [discriminate|].
  simpl in Hloop.
  destruct (HasPendingMutations (bs_mutator st)).
  - destruct (BulkApply_round_cases md st)
      as [(_ & _ & st' & Hround) | (_ & st' & Hround & Hbackoff)];
      rewrite Hround in Hloop.
    + injection Hloop as <- <-. simpl. trivial.
    + destruct (BulkApply_loop fuel md st') as [[fin' tr']|] eqn:Hrest;
        [|discriminate].
      injection Hloop as <- <-. simpl.
      apply IH in Hrest. rewrite Hbackoff in Hrest.
      destruct tr'; [trivial|]. split; [reflexivity|exact Hrest].
  - injection Hloop as <- <-. simpl. trivial.
Qed.

(** C8, as the code has it.  In a run of [BulkApply] every two consecutive
    rounds are separated by exactly one wait, and the delay waited is the
    one the backoff policy computes from the whole-request status of the
    round just made, be it a failure or a success (when a request succeeds
    as a whole and leaves entries pending, the delay comes from its OK
    status).  A round whose request fails as a whole and that the retry
    policy rejects ends the loop with no wait after it. *)
Theorem C8_BulkApply_waits_between_rounds t mut :
  (forall fuel failures t' tr,
      BulkApply fuel t mut = Some (failures, t', tr) ->
      rounds_separated_by_backoff (backoff_clone (rpc_backoff_policy_ t)) tr)
  /\ (forall fuel md st,
        HasPendingMutations (bs_mutator st) = true ->
        grpc.ok (round_status md st) = false ->
        fst (OnFailure (bs_retry_policy st) (round_status md st)) = false ->
        exists fin,
          BulkApply_loop (S fuel) md st
          = Some (fin, [EvRpc (round_status md st)])).
Proof.
  split.
  - intros fuel failures t' tr Hrun. unfold BulkApply in Hrun.
    destruct (BulkApply_loop fuel _ _) as [[fin tr0]|] eqn:Hloop;
      [|discriminate].
    injection Hrun as _ _ <-.
    apply (BulkApply_loop_trace _ _ _ Hloop).
  - intros fuel md st Hpending Hok Hrej. simpl. rewrite Hpending.
    destruct (BulkApply_round_cases md st)
      as [(_ & _ & st' & Hround) | ([Hok' | Hacc] & _)].
    + rewrite Hround. eauto.
    + congruence.
    + congruence.
Qed.

(** [Apply] and [BulkApply] leave the table with the policies it had. *)
Lemma Apply_same_policies
  (t : Table C R B I MD) (m : SingleRowMutation Mutation) fuel result t' tr :
  Apply fuel t m = Some (result, t', tr) -> same_policies t t'.
Proof.
  unfold Apply. intros Hrun.
  destruct (Apply_loop fuel _ _ _ _ _ _) as [[[r0 c0] tr0]|]; [|discriminate].
  injection Hrun as _ <- _. repeat split.
Qed.

Lemma BulkApply_same_policies t mut fuel failures t' tr :
  BulkApply fuel t mut = Some (failures, t', tr) -> same_policies t t'.
Proof.
  unfold BulkApply. intros Hrun.
  destruct (BulkApply_loop fuel _ _) as [[fin tr0]|]; [|discriminate].
  injection Hrun as _ <- _. repeat split.
Qed.

End BulkApplyProperties.

Section ReadProperties.

Context {Mutation ClientContext Filter RowSet Cell : Type}.
Context {cc_ops : ClientContextOps ClientContext}.
Context {rs_ops : RowSetOps RowSet}.
Context {C R B I MD M : Type}.
Context {data_client : DataClient Mutation ClientContext C}.
Context {retry_policy : RPCRetryPolicy ClientContext R}.
Context {backoff_policy : RPCBackoffPolicy ClientContext B}.
Context {idempotency_policy : IdempotentMutationPolicy Mutation I}.
Context {metadata_policy : MetadataUpdatePolicy ClientContext MD}.
Context {mutator_ops : BulkMutatorOps Mutation ClientContext C I M}.
Context {reader_ops : RowReaderOps Filter RowSet Cell C R B MD}.

Implicit Types (t : Table C R B I MD) (filter : Filter).

(** C3.  [ReadRow] scans the row set of the one key with the filter it is
    given and a limit of one row.  When the reader is at its end from the
    start, the answer is [(false, Row("", {}))]; when it yields a row and
    then is at its end, the answer is [(true, row)]; when it yields a row
    and then anything more, the answer is the internal error, and no
    row. *)
Theorem C3_ReadRow_cardinality t (row_key : string) filter :
  let reader := ReadRow_reader t row_key filter in
  (rr_rows_limit reader = 1%Z /\
   rr_row_set reader = RowSet_of_key row_key /\
   rr_filter reader = filter)
  /\ (fst (RowReader_next reader) = None ->
      fst (ReadRow t row_key filter) = Value (false, Row_empty))
  /\ (forall row,
        fst (RowReader_next reader) = Some (Value row) ->
        fst (RowReader_next (snd (RowReader_next reader))) = None ->
        fst (ReadRow t row_key filter) = Value (true, row))
  /\ (forall row second,
        fst (RowReader_next reader) = Some (Value row) ->
        fst (RowReader_next (snd (RowReader_next reader))) = Some second ->
        fst (ReadRow t row_key filter)
        = Failure {| code := kInternal; message := ReadRow_error_message |}).
Proof.
  intros reader. split; [repeat split|].
  unfold ReadRow. fold reader.
  destruct (RowReader_next reader) as [it reader1]. simpl.
  split; [|split].
  - intros ->. reflexivity.
  - intros row -> Hend.
    destruct (RowReader_next reader1) as [it' reader2]. simpl in Hend.
    subst it'. reflexivity.
  - intros row second -> Hmore.
    destruct (RowReader_next reader1) as [it' reader2]. simpl in Hmore.
    subst it'. reflexivity.
Qed.

(** C9.  [Apply] and [BulkApply] run their loops on clones of the retry
    and backoff policies of the table, and ask the clone of its
    idempotency policy; the readers of [ReadRows] and of [ReadRow] are
    given clones of the retry and backoff policies.  Whatever these
    operations do, the table they leave holds the policies it held. *)
Theorem C9_policies_of_the_table_unchanged t :
  (forall fuel (mut : SingleRowMutation Mutation),
      Apply fuel t mut
      = match Apply_loop fuel (metadata_update_policy_ t)
                (Apply_request t mut)
                (forallb (is_idempotent
                            (idempotent_clone (idempotent_mutation_policy_ t)))
                         (mutations (Apply_request t mut)))
                (client_ t) (retry_clone (rpc_retry_policy_ t))
                (backoff_clone (rpc_backoff_policy_ t)) with
        | Some (result, client', tr) =>
            Some (result, set_client t client', tr)
        | None => None
        end)
  /\ (forall fuel (mut : SingleRowMutation Mutation) result t' tr,
        Apply fuel t mut = Some (result, t', tr) -> same_policies t t')
  /\ (forall (mut : BulkMutation Mutation),
        BulkApply_init (M := M) t mut
        = {| bs_mutator :=
               BulkMutator_new (app_profile_id_ t) (table_name_ t)
                 (idempotent_clone (idempotent_mutation_policy_ t)) mut;
             bs_client := client_ t;
             bs_retry_policy := retry_clone (rpc_retry_policy_ t);
             bs_backoff_policy := backoff_clone (rpc_backoff_policy_ t) |})
  /\ (forall fuel (mut : BulkMutation Mutation) failures t' tr,
        BulkApply (M := M) fuel t mut = Some (failures, t', tr) ->
        same_policies t t')
  /\ (forall (row_set : RowSet) filter,
        rr_retry_policy (ReadRows t row_set filter)
        = retry_clone (rpc_retry_policy_ t) /\
        rr_backoff_policy (ReadRows t row_set filter)
        = backoff_clone (rpc_backoff_policy_ t))
  /\ (forall (row_set : RowSet) (rows_limit : Z) filter,
        rr_retry_policy (ReadRows_limit t row_set rows_limit filter)
        = retry_clone (rpc_retry_policy_ t) /\
        rr_backoff_policy (ReadRows_limit t row_set rows_limit filter)
        = backoff_clone (rpc_backoff_policy_ t))
  /\ (forall (row_key : string) filter,
        same_policies t (snd (ReadRow t row_key filter))).
Proof.
  split; [reflexivity|].
  split; [intros; eapply Apply_same_policies; eauto|].
  split; [reflexivity|].
  split; [intros; eapply BulkApply_same_policies; eauto|].
  split; [split; reflexivity|].
  split; [split; reflexivity|].
  intros row_key filter. unfold ReadRow.
  destruct (RowReader_next _) as [[[row|s]|] reader1]; simpl;
    try (repeat split; fail).
  destruct (RowReader_next reader1) as [[e|] reader2]; repeat split.
Qed.

End ReadProperties.

(** ** The bulk mutator of the spec *)

Section ListFacts.

Context {A B : Type}.

Lemma NoDup_app_disjoint (l1 l2 : list A) (a : A) :
  NoDup (l1 ++ l2) -> In a l1 -> ~ In a l2.
Proof.
  induction l1 as [|x l1 IH]; intros Hnodup Hin; [contradiction|].
  simpl in Hnodup. inversion Hnodup as [|? ? Hnotin Hnodup']; subst.
  destruct Hin as [<- | Hin].
  - intros Hin2. apply Hnotin, in_or_app. now right.
  - now apply IH.
Qed.

Lemma NoDup_app_shrink (l1 l2 l2' : list A) :
  NoDup (l1 ++ l2) -> NoDup l2' -> incl l2' l2 -> NoDup (l1 ++ l2').
Proof.
  intros Hnodup Hnodup' Hincl. apply NoDup_app.
  - eapply NoDup_app_remove_r; eauto.
  - exact Hnodup'.
  - intros a Hin Hin'. eapply NoDup_app_disjoint; eauto.
Qed.

Lemma map_fst_combine (l : list A) (l' : list B) :
  List.length l = List.length l' -> map fst (combine l l') = l.
Proof.
  revert l'. induction l as [|x l IH]; intros [|y l'] Hlen;
    try discriminate; [reflexivity|].
  simpl. f_equal. apply IH. now injection Hlen.
Qed.

End ListFacts.

Section BulkMutatorProperties.

Context {Mutation ClientContext : Type}.
Context {cc_ops : ClientContextOps ClientContext}.
Context {C R B I MD : Type}.
Context {data_client : DataClient Mutation ClientContext C}.
Context {retry_policy : RPCRetryPolicy ClientContext R}.
Context {backoff_policy : RPCBackoffPolicy ClientContext B}.
Context {idempotency_policy : IdempotentMutationPolicy Mutation I}.
Context {metadata_policy : MetadataUpdatePolicy ClientContext MD}.

Implicit Types (t : Table C R B I MD) (mut : BulkMutation Mutation).
Implicit Types (m : BulkMutator Mutation I) (md : MD).
Implicit Types (st fin : BulkState C R B (BulkMutator Mutation I)).

(** Sorting the pending entries by the statuses that came back keeps every
    index at most once, adds none, and drops the entries that are done. *)
Lemma process_entries_tracked (policy : I)
  (pending : list (nat * SingleRowMutation Mutation)) :
  forall statuses still failures,
    process_entries policy pending statuses = (still, failures) ->
    incl (map original_index failures ++ map fst still) (map fst pending) /\
    incl (succeeded_entries pending statuses) (map fst pending) /\
    (NoDup (map fst pending) ->
     NoDup (map original_index failures ++ map fst still) /\
     forall i, In i (succeeded_entries pending statuses) ->
               ~ In i (map original_index failures ++ map fst still)).
Proof.
  induction pending as [|[index e] pending IH];
    intros statuses still failures Hproc.
  - injection Hproc as <- <-. simpl.
    split; [apply incl_refl|]. split; [apply incl_refl|].
    intros _. split; [constructor|]. intros i [].
  - destruct statuses as [|s statuses].
    + injection Hproc as <- <-. simpl.
      split; [apply incl_refl|]. split; [intros x []|].
      intros Hnodup. split; [exact Hnodup|]. intros i [].
    + simpl in Hproc.
      destruct (process_entries policy pending statuses)
        as [still' failures'] eqn:Hrec.
      destruct (IH _ _ _ Hrec) as (Hincl & Hsucc & Hnd).
      simpl succeeded_entries. simpl map at 3.
      destruct (grpc.ok s) eqn:Hok.
      * injection Hproc as <- <-.
        split; [apply incl_tl; exact Hincl|].
        split; [apply incl_cons; [now left | apply incl_tl; exact Hsucc]|].
        intros Hnodup. inversion Hnodup as [|? ? Hnotin Hnodup']; subst.
        destruct (Hnd Hnodup') as [HndL Hnot].
        split; [exact HndL|].
        intros i [<- | Hi]; [|now apply Hnot].
        intros Hin. apply Hnotin, Hincl, Hin.
      * destruct (entry_is_idempotent policy e).
        -- injection Hproc as <- <-. simpl map.
           split.
           { intros x Hx. apply in_elt_inv in Hx as [<- | Hx];
               [now left | right; apply Hincl, Hx]. }
           split; [apply incl_tl; exact Hsucc|].
           intros Hnodup. inversion Hnodup as [|? ? Hnotin Hnodup']; subst.
           destruct (Hnd Hnodup') as [HndL Hnot].
           split.
           { apply (Permutation_NoDup (Permutation_middle _ _ _)).
             constructor; [|exact HndL].
             intros Hin. apply Hnotin, Hincl, Hin. }
           intros i Hi Hin. apply in_elt_inv in Hin as [Heq | Hin].
           ++ subst i. apply Hnotin, Hsucc, Hi.
           ++ exact (Hnot i Hi Hin).
        -- injection Hproc as <- <-. simpl map. simpl app.
           split.
           { intros x [<- | Hx]; [now left | right; apply Hincl, Hx]. }
           split; [apply incl_tl; exact Hsucc|].
           intros Hnodup. inversion Hnodup as [|? ? Hnotin Hnodup']; subst.
           destruct (Hnd Hnodup') as [HndL Hnot].
           split.
           { constructor; [|exact HndL].
             intros Hin. apply Hnotin, Hincl, Hin. }
           intros i Hi [Heq | Hin].
           ++ subst i. apply Hnotin, Hsucc, Hi.
           ++ exact (Hnot i Hi Hin).
Qed.

(** One request of the mutator: no index is added, none is doubled, and
    the entries that the response reports as done are let go. *)
Lemma MakeOneRequest_tracked m (client : C) (ctx : ClientContext) :
  let m' := snd (fst (BulkMutator_MakeOneRequest m client ctx)) in
  incl (tracked m') (tracked m) /\
  (NoDup (tracked m) ->
   NoDup (tracked m') /\
   forall i statuses,
     fst (MutateRows client ctx (BulkMutator_request m))
     = EntryStatuses statuses ->
     In i (succeeded_entries (bm_pending m) statuses) ->
     ~ In i (tracked m')).
Proof.
  unfold BulkMutator_MakeOneRequest, tracked.
  destruct (MutateRows client ctx (BulkMutator_request m))
    as [[statuses|s] client']; simpl.
  - destruct (process_entries (bm_idempotent_policy m) (bm_pending m)
                statuses) as [still failures] eqn:Hproc. simpl.
    destruct (process_entries_tracked _ _ _ Hproc) as (Hincl & Hsucc & Hnd).
    rewrite map_app, <- app_assoc.
    split.
    + apply incl_app; [apply incl_appl, incl_refl|].
      apply incl_appr, Hincl.
    + intros Hnodup.
      destruct (Hnd (NoDup_app_remove_l _ _ Hnodup)) as [HndL Hnot].
      split; [eapply NoDup_app_shrink; eauto|].
      intros i statuses' Heq Hi Hin. injection Heq as <-.
      apply in_app_or in Hin as [Hin | Hin].
      * exact (NoDup_app_disjoint _ _ _ Hnodup Hin (Hsucc i Hi)).
      * exact (Hnot i Hi Hin).
  - split; [apply incl_refl|].
    intros Hnodup. split; [exact Hnodup|]. intros i statuses Habs.
    discriminate.
Qed.

(** Sorting the pending entries keeps entries that were pending. *)
Lemma process_entries_still (policy : I)
  (pending : list (nat * SingleRowMutation Mutation)) :
  forall statuses still failures,
    process_entries policy pending statuses = (still, failures) ->
    incl still pending.
Proof.
  induction pending as [|[index e] pending IH];
    intros statuses still failures Hproc.
  - injection Hproc as <- _. apply incl_refl.
  - destruct statuses as [|s statuses].
    + injection Hproc as <- _. apply incl_refl.
    + simpl in Hproc.
      destruct (process_entries policy pending statuses)
        as [still' failures'] eqn:Hrec.
      specialize (IH _ _ _ Hrec).
      destruct (grpc.ok s); [|destruct (entry_is_idempotent policy e)];
        injection Hproc as <- _.
      * apply incl_tl, IH.
      * apply incl_cons; [now left | apply incl_tl, IH].
      * apply incl_tl, IH.
Qed.

Lemma MakeOneRequest_pending m (client : C) (ctx : ClientContext) :
  incl (bm_pending (snd (fst (BulkMutator_MakeOneRequest m client ctx))))
       (bm_pending m).
Proof.
  unfold BulkMutator_MakeOneRequest.
  destruct (MutateRows client ctx (BulkMutator_request m))
    as [[statuses|s] client']; simpl; [|apply incl_refl].
  destruct (process_entries (bm_idempotent_policy m) (bm_pending m)
              statuses) as [still failures] eqn:Hproc. simpl.
  eapply process_entries_still; eauto.
Qed.

Lemma BulkApply_state_after_pending n :
  forall md st st_n,
    BulkApply_state_after n md st = Some st_n ->
    incl (bm_pending (bs_mutator st_n)) (bm_pending (bs_mutator st)).
Proof.
  induction n as [|n IH]; intros md st st_n Hafter.
  - injection Hafter as <-. apply incl_refl.
  - cbn [BulkApply_state_after] in Hafter.
    destruct (HasPendingMutations (bs_mutator st)); [|discriminate].
    pose proof (BulkApply_round_mutator md st) as Hmut.
    destruct (BulkApply_round md st) as [st' status|st' status delay];
      [discriminate|].
    eapply incl_tran; [apply (IH _ _ _ Hafter)|].
    simpl in Hmut. rewrite Hmut. apply MakeOneRequest_pending.
Qed.

(** The entries numbered from [start] sit at their numbers. *)
Lemma combine_seq_nth_error (l : list (SingleRowMutation Mutation)) :
  forall start i e,
    In (i, e) (combine (seq start (List.length l)) l) ->
    start <= i /\ nth_error l (i - start) = Some e.
Proof.
  induction l as [|x l IH]; intros start i e Hin; [contradiction|].
  simpl in Hin. destruct Hin as [Heq | Hin].
  - injection Heq as <- <-. split; [lia|].
    rewrite Nat.sub_diag. reflexivity.
  - destruct (IH _ _ _ Hin) as [Hle Hnth]. split; [lia|].
    replace (i - start) with (S (i - S start)) by lia. exact Hnth.
Qed.

(** The indices of the list that the mutator hands over at the end. *)
Lemma ExtractFinalFailures_indices m :
  map original_index (BulkMutator_ExtractFinalFailures m) = tracked m.
Proof.
  unfold BulkMutator_ExtractFinalFailures, tracked.
  rewrite map_app, map_map. reflexivity.
Qed.

(** The mutator starts with the submission positions. *)
Lemma BulkMutator_make_tracked app_profile table (policy : I) mut :
  tracked (BulkMutator_make app_profile table policy mut)
  = seq 0 (List.length mut).
Proof.
  unfold tracked, BulkMutator_make. simpl.
  apply map_fst_combine. apply length_seq.
Qed.

(** Along the loop the mutator never answers for more indices. *)
Lemma BulkApply_loop_tracked fuel :
  forall md st fin tr,
    BulkApply_loop fuel md st = Some (fin, tr) ->
    incl (tracked (bs_mutator fin)) (tracked (bs_mutator st)) /\
    (NoDup (tracked (bs_mutator st)) -> NoDup (tracked (bs_mutator fin))).
Proof.
  induction fuel as [|fuel IH]; intros md st fin tr Hloop; [discriminate|].
  cbn [BulkApply_loop] in Hloop.
  destruct (HasPendingMutations (bs_mutator st)).
  - pose proof (BulkApply_round_mutator md st) as Hmut.
    destruct (MakeOneRequest_tracked (bs_mutator st) (bs_client st)
                (BulkApply_context md (bs_backoff_policy st)
                   (bs_retry_policy st))) as [Hincl Hnd].
    destruct (BulkApply_round md st) as [st' status|st' status delay].
    + injection Hloop as <- _. simpl in Hmut. rewrite Hmut.
      split; [exact Hincl | intros Hnodup; apply Hnd, Hnodup].
    + destruct (BulkApply_loop fuel md st') as [[fin' tr']|] eqn:Hrest;
        [|discriminate].
      injection Hloop as <- _.
      destruct (IH _ _ _ _ Hrest) as [Hincl' Hnd'].
      simpl in Hmut. rewrite Hmut in Hincl', Hnd'.
      split; [eapply incl_tran; eauto|].
      intros Hnodup. apply Hnd', Hnd, Hnodup.
  - injection Hloop as <- _. split; [apply incl_refl | auto].
Qed.

Lemma BulkApply_state_after_tracked n :
  forall md st st_n,
    BulkApply_state_after n md st = Some st_n ->
    NoDup (tracked (bs_mutator st)) -> NoDup (tracked (bs_mutator st_n)).
Proof.
  induction n as [|n IH]; intros md st st_n Hafter Hnodup.
  - injection Hafter as <-. exact Hnodup.
  - cbn [BulkApply_state_after] in Hafter.
    destruct (HasPendingMutations (bs_mutator st)); [|discriminate].
    pose proof (BulkApply_round_mutator md st) as Hmut.
    destruct (MakeOneRequest_tracked (bs_mutator st) (bs_client st)
                (BulkApply_context md (bs_backoff_policy st)
                   (bs_retry_policy st))) as [_ Hnd].
    destruct (BulkApply_round md st) as [st' status|st' status delay];
      [discriminate|].
    apply (IH _ _ _ Hafter). simpl in Hmut. rewrite Hmut.
    apply Hnd, Hnodup.
Qed.

(** An index that a round reports as done is not in what a run through
    that round returns. *)
Lemma BulkApply_loop_drops_successes fuel md st fin tr i :
  BulkApply_loop fuel md st = Some (fin, tr) ->
  NoDup (tracked (bs_mutator st)) ->
  In i (round_successes md st) ->
  ~ In i (tracked (bs_mutator fin)).
Proof.
  intros Hloop Hnodup Hi. unfold round_successes in Hi.
  destruct (fst (MutateRows _ _ _)) as [statuses|s] eqn:Hres;
    [|contradiction].
  destruct fuel as [|fuel]; [discriminate|]. cbn [BulkApply_loop] in Hloop.
  destruct (bm_pending (bs_mutator st)) as [|p pending] eqn:Hpending;
    [contradiction|].
  change (HasPendingMutations (bs_mutator st))
    with (BulkMutator_HasPendingMutations (bs_mutator st)) in Hloop.
  unfold BulkMutator_HasPendingMutations in Hloop. rewrite Hpending in Hloop.
  rewrite <- Hpending in Hi.
  pose proof (BulkApply_round_mutator md st) as Hmut.
  destruct (MakeOneRequest_tracked (bs_mutator st) (bs_client st)
              (BulkApply_context md (bs_backoff_policy st)
                 (bs_retry_policy st))) as [_ Hnd].
  destruct (Hnd Hnodup) as [_ Hnot]. specialize (Hnot i statuses Hres Hi).
  destruct (BulkApply_round md st) as [st' status|st' status delay];
    simpl in Hmut.
  - injection Hloop as <- _. rewrite Hmut. exact Hnot.
  - destruct (BulkApply_loop fuel md st') as [[fin' tr']|] eqn:Hrest;
      [|discriminate].
    injection Hloop as <- _.
    destruct (BulkApply_loop_tracked _ _ _ Hrest) as [Hincl _].
    intros Hin. apply Hnot. rewrite <- Hmut. apply Hincl, Hin.
Qed.

(** C4.  The list that [BulkApply] returns names every original index at
    most once; every index in it is a submission position of the bulk
    mutation, and in every round an entry is pending under the position it
    was submitted at; and the list names no index that some round of the
    run reported as done. *)
Theorem C4_BulkApply_failures_are_stable t mut fuel failures t' tr :
  BulkApply (M := BulkMutator Mutation I) fuel t mut
  = Some (failures, t', tr) ->
  NoDup (map original_index failures)
  /\ (forall f, In f failures -> original_index f < List.length mut)
  /\ (forall n st_n i e,
        BulkApply_state_after n (metadata_update_policy_ t)
          (BulkApply_init t mut) = Some st_n ->
        In (i, e) (bm_pending (bs_mutator st_n)) ->
        nth_error mut i = Some e)
  /\ (forall n st_n i,
        BulkApply_state_after n (metadata_update_policy_ t)
          (BulkApply_init t mut) = Some st_n ->
        In i (round_successes (metadata_update_policy_ t) st_n) ->
        ~ In i (map original_index failures)).
Proof.
  unfold BulkApply. intros Hrun.
  destruct (BulkApply_loop fuel _ _) as [[fin tr0]|] eqn:Hloop;
    [|discriminate].
  injection Hrun as <- _ _.
  change (ExtractFinalFailures (bs_mutator fin))
    with (BulkMutator_ExtractFinalFailures (bs_mutator fin)).
  rewrite ExtractFinalFailures_indices.
  assert (Hinit : tracked (bs_mutator (BulkApply_init t mut))
                  = seq 0 (List.length mut))
    by apply BulkMutator_make_tracked.
  destruct (BulkApply_loop_tracked _ _ _ Hloop) as [Hincl Hnd].
  rewrite Hinit in Hincl, Hnd.
  split; [apply Hnd, seq_NoDup|].
  split.
  - intros f Hf.
    assert (Hin : In (original_index f) (tracked (bs_mutator fin))).
    { rewrite <- ExtractFinalFailures_indices. now apply in_map. }
    apply Hincl, in_seq in Hin. lia.
  - split.
    { intros n st_n i e Hafter Hin.
      apply (BulkApply_state_after_pending _ _ _ Hafter) in Hin.
      apply combine_seq_nth_error in Hin as [_ Hnth].
      rewrite Nat.sub_0_r in Hnth. exact Hnth. }
    intros n st_n i Hafter Hi.
    edestruct BulkApply_loop_from_state_after as (fuel' & tr' & Hloop');
      [exact Hloop | exact Hafter |].
    eapply BulkApply_loop_drops_successes; eauto.
    eapply BulkApply_state_after_tracked; eauto.
    rewrite Hinit. apply seq_NoDup.
Qed.


End BulkMutatorProperties.

(** ** The bounded retry policy of the spec *)

Section BoundedRetryPolicyProperties.

Context {ClientContext : Type}.

Implicit Types (p : BoundedRetryPolicy) (ss : list grpc.Status).

(** Below its bound the policy allows another attempt after every
    transient failure. *)
Lemma BoundedRetryPolicy_accepts_below_bound ss :
  forall p,
    Forall (fun s => brp_transient p (grpc.error_code s) = true) ss ->
    brp_attempts p + List.length ss < brp_bound p ->
    retry_accepts (ClientContext := ClientContext) p ss = true.
Proof.
  induction ss as [|s ss IH]; intros p Htransient Hbound; [reflexivity|].
  inversion Htransient as [|? ? Hs Hrest]; subst.
  cbn [retry_accepts OnFailure BoundedRetryPolicy_policy].
  unfold BoundedRetryPolicy_OnFailure. rewrite Hs.
  simpl in Hbound.
  replace (Nat.ltb (S (brp_attempts p)) (brp_bound p)) with true
    by (symmetry; apply Nat.ltb_lt; lia).
  apply IH; simpl; [exact Hrest | lia].
Qed.

(** At its bound the policy gives up: shown as many transient failures as
    it has attempts left, it allows another attempt after each but the
    last. *)
Lemma BoundedRetryPolicy_gives_up_at_bound ss :
  forall p,
    Forall (fun s => brp_transient p (grpc.error_code s) = true) ss ->
    ss <> [] ->
    brp_attempts p + List.length ss = brp_bound p ->
    retry_gives_up_at (ClientContext := ClientContext) p ss = true.
Proof.
  induction ss as [|s ss IH]; intros p Htransient Hne Hbound;
    [contradiction|].
  inversion Htransient as [|? ? Hs Hrest]; subst.
  cbn [retry_gives_up_at OnFailure BoundedRetryPolicy_policy].
  unfold BoundedRetryPolicy_OnFailure. rewrite Hs.
  simpl in Hbound. destruct ss as [|s2 ss].
  - replace (Nat.ltb (S (brp_attempts p)) (brp_bound p)) with false
      by (symmetry; apply Nat.ltb_ge; simpl in Hbound; lia).
    reflexivity.
  - replace (Nat.ltb (S (brp_attempts p)) (brp_bound p)) with true
      by (symmetry; apply Nat.ltb_lt; simpl in Hbound; lia).
    apply IH; simpl; [exact Hrest | discriminate | simpl in Hbound; lia].
Qed.

End BoundedRetryPolicyProperties.

(** [Apply] on a table whose retry policy is the bounded policy: the
    statements of the retry loop, with the bound as the policy has it
    configured. *)
Section ApplyWithBoundedPolicy.

Context {Mutation ClientContext : Type}.
Context {cc_ops : ClientContextOps ClientContext}.
Context {C B I MD : Type}.
Context {data_client : DataClient Mutation ClientContext C}.
Context {backoff_policy : RPCBackoffPolicy ClientContext B}.
Context {idempotency_policy : IdempotentMutationPolicy Mutation I}.
Context {metadata_policy : MetadataUpdatePolicy ClientContext MD}.

Implicit Types (t : Table C BoundedRetryPolicy B I MD).
Implicit Types (mut : SingleRowMutation Mutation) (ss : list grpc.Status).

Lemma Apply_bounded_policy_succeeds t mut ss s_ok fuel :
  Apply_is_idempotent t mut = true ->
  MutateRow_answers (client_ t) (Apply_request t mut) (ss ++ [s_ok]) ->
  Forall failed ss ->
  Forall (fun s => brp_transient (rpc_retry_policy_ t) (grpc.error_code s)
                   = true) ss ->
  grpc.ok s_ok = true ->
  List.length ss < brp_bound (rpc_retry_policy_ t) ->
  List.length ss < fuel ->
  exists t' tr,
    Apply fuel t mut = Some (Status_default, t', tr) /\
    rpc_attempts tr = List.length ss + 1.
Proof.
  intros Hidem Hans Hfailed Htransient Hok Hbound Hfuel.
  assert (Hex : exists client' tr,
             Apply_loop fuel (metadata_update_policy_ t)
               (Apply_request t mut) true (client_ t)
               (retry_clone (ClientContext := ClientContext)
                  (rpc_retry_policy_ t))
               (backoff_clone (rpc_backoff_policy_ t))
             = Some (Status_default, client', tr) /\
             rpc_attempts tr = S (List.length ss)).
  { eapply Apply_loop_succeeds_after; eauto.
    apply BoundedRetryPolicy_accepts_below_bound; [exact Htransient|].
    exact Hbound. }
  destruct Hex as (client' & tr & Hloop & Hcount).
  exists (set_client t client'), tr. split.
  - unfold Apply. rewrite Hidem, Hloop. reflexivity.
  - rewrite Hcount. lia.
Qed.

Lemma Apply_bounded_policy_exhausted t mut ss d fuel :
  Apply_is_idempotent t mut = true ->
  MutateRow_answers (client_ t) (Apply_request t mut) ss ->
  Forall failed ss ->
  Forall (fun s => brp_transient (rpc_retry_policy_ t) (grpc.error_code s)
                   = true) ss ->
  1 <= brp_bound (rpc_retry_policy_ t) ->
  List.length ss = brp_bound (rpc_retry_policy_ t) ->
  brp_bound (rpc_retry_policy_ t) <= fuel ->
  exists t' tr,
    Apply fuel t mut
    = Some (MakeStatusFromRpcError (grpc.error_code (last ss d))
              Apply_error_message, t', tr) /\
    rpc_attempts tr = brp_bound (rpc_retry_policy_ t).
Proof.
  intros Hidem Hans Hfailed Htransient Hpos Hlen Hfuel.
  assert (Hex : exists client' tr,
             Apply_loop fuel (metadata_update_policy_ t)
               (Apply_request t mut) true (client_ t)
               (retry_clone (ClientContext := ClientContext)
                  (rpc_retry_policy_ t))
               (backoff_clone (rpc_backoff_policy_ t))
             = Some (MakeStatusFromRpcError (grpc.error_code (last ss d))
                       Apply_error_message, client', tr) /\
             rpc_attempts tr = List.length ss).
  { eapply Apply_loop_exhausted; eauto; [|lia].
    apply BoundedRetryPolicy_gives_up_at_bound.
    - exact Htransient.
    - intros ->. simpl in Hlen. lia.
    - simpl. exact Hlen. }
  destruct Hex as (client' & tr & Hloop & Hcount).
  exists (set_client t client'), tr. split.
  - unfold Apply. rewrite Hidem, Hloop. reflexivity.
  - rewrite Hcount. exact Hlen.
Qed.

End ApplyWithBoundedPolicy.

(** ** The statements on concrete runs *)

(** The scenarios of the spec. *)
Example ex_Apply_retries :
  Apply 5 (ex_table 3 [ex_status grpc.UNAVAILABLE; ex_status grpc.UNAVAILABLE;
                        ex_status grpc.OK] [] [])
        (ex_mutation [DeleteCell])
  = Some (Status_default,
          ex_table 3 [] [] [],
          [EvRpc (ex_status grpc.UNAVAILABLE); EvSleep 10%Z;
           EvRpc (ex_status grpc.UNAVAILABLE); EvSleep 20%Z;
           EvRpc (ex_status grpc.OK)]).
Proof. reflexivity. Qed.

Example ex_BulkApply_partial_failure :
  BulkApply (M := BulkMutator ex_Mutation unit) 3
    ex_partial_table ex_partial_mutation
  = Some ([{| original_index := 1; status := ex_unavailable |}],
          ex_table 3 [] [] [],
          [EvRpc ex_ok; EvSleep 10%Z; EvRpc ex_ok; EvSleep 20%Z]).
Proof. reflexivity. Qed.

(** In the second round of that run the first entry is reported as
    done. *)
Example ex_BulkApply_partial_second_round :
  exists st1,
    BulkApply_state_after 1 tt
      (BulkApply_init ex_partial_table ex_partial_mutation) = Some st1 /\
    bm_pending (bs_mutator st1) = [(0, ex_mutation [DeleteCell])] /\
    round_successes tt st1 = [0].
Proof. eexists. repeat split. Qed.

(** A bulk mutation that is done after one round: the loop still waits
    the delay of the backoff policy before it finds nothing pending. *)
Example ex_BulkApply_waits_after_last_round :
  BulkApply (M := BulkMutator ex_Mutation unit) 2
    (ex_table 3 [] [EntryStatuses [ex_ok]] []) ex_bulk_mutation
  = Some ([], ex_table 3 [] [] [], [EvRpc ex_ok; EvSleep 10%Z]).
Proof. reflexivity. Qed.

Example ex_ReadRow_not_found :
  fst (ReadRow (ex_table 3 [] [] []) "row" tt) = Value (false, Row_empty).
Proof. reflexivity. Qed.

Example ex_ReadRow_two_rows :
  fst (ReadRow (ex_table 3 [] [] [Value ex_row; Value ex_row]) "row" tt)
  = Failure {| code := kInternal; message := ReadRow_error_message |}.
Proof. reflexivity. Qed.

Lemma C1_witness :
  Apply_loop 2 tt
    (Apply_request (ex_table 3 [ex_unavailable; ex_ok] [] [])
       (ex_mutation [DeleteCell]))
    true
    {| sc_rows := [ex_unavailable; ex_ok]; sc_bulk := []; sc_reads := [] |}
    {| brp_transient := ex_transient; brp_bound := 3; brp_attempts := 0 |}
    10%Z
  = Some (Status_default,
          {| sc_rows := []; sc_bulk := []; sc_reads := [] |},
          [EvRpc ex_unavailable; EvSleep 10%Z; EvRpc ex_ok]).
Proof.
  exact (proj2 (proj2 (proj2 (proj2
    (C1_Apply_decides_by_idempotency_and_retry_policy
       (ex_table 3 [ex_unavailable; ex_ok] [] [])
       (ex_mutation [DeleteCell])))
    1 tt
    (Apply_request (ex_table 3 [ex_unavailable; ex_ok] [] [])
       (ex_mutation [DeleteCell]))
    true
    {| sc_rows := [ex_unavailable; ex_ok]; sc_bulk := []; sc_reads := [] |}
    {| brp_transient := ex_transient; brp_bound := 3; brp_attempts := 0 |}
    10%Z ex_unavailable
    {| sc_rows := [ex_ok]; sc_bulk := []; sc_reads := [] |}
    eq_refl)) eq_refl eq_refl eq_refl).
Defined.

Lemma C2_witness :
  exists fin,
    BulkApply_run (M := BulkMutator ex_Mutation unit) tt
      (BulkApply_init ex_partial_table ex_partial_mutation)
      [EvRpc ex_ok; EvSleep 10%Z; EvRpc ex_ok; EvSleep 20%Z] fin /\
    [{| original_index := 1; status := ex_unavailable |}]
    = ExtractFinalFailures (bs_mutator fin) /\
    ex_table 3 [] [] [] = set_client ex_partial_table (bs_client fin).
Proof.
  exact (proj1 (proj2 (proj2
           (C2_BulkApply_returns_failures_when_loop_stops
              (M := BulkMutator ex_Mutation unit)
              ex_partial_table ex_partial_mutation 3)))
           [{| original_index := 1; status := ex_unavailable |}]
           (ex_table 3 [] [] [])
           [EvRpc ex_ok; EvSleep 10%Z; EvRpc ex_ok; EvSleep 20%Z]
           eq_refl).
Defined.

Lemma C3_witness :
  fst (ReadRow (ex_table 3 [] [] [Value ex_row]) "row" tt)
  = Value (true, ex_row).
Proof.
  exact (proj1 (proj2 (proj2
    (C3_ReadRow_cardinality (ex_table 3 [] [] [Value ex_row]) "row" tt)))
    ex_row eq_refl eq_refl).
Defined.

Lemma C4_witness :
  NoDup (map original_index
           [{| original_index := 1; status := ex_unavailable |}])
  /\ (forall f,
        In f [{| original_index := 1; status := ex_unavailable |}] ->
        original_index f < List.length ex_partial_mutation)
  /\ (forall n st_n i e,
        BulkApply_state_after n tt
          (BulkApply_init ex_partial_table ex_partial_mutation) = Some st_n ->
        In (i, e) (bm_pending (bs_mutator st_n)) ->
        nth_error ex_partial_mutation i = Some e)
  /\ (forall n st_n i,
        BulkApply_state_after n tt
          (BulkApply_init ex_partial_table ex_partial_mutation) = Some st_n ->
        In i (round_successes tt st_n) ->
        ~ In i (map original_index
                  [{| original_index := 1; status := ex_unavailable |}])).
Proof.
  exact (C4_BulkApply_failures_are_stable
           ex_partial_table ex_partial_mutation 3 eq_refl).
Defined.

Lemma C5_witness :
  exists t' tr,
    Apply 3 (ex_table 3 [ex_unavailable; ex_unavailable; ex_ok] [] [])
      (ex_mutation [DeleteCell])
    = Some (Status_default, t', tr) /\
    rpc_attempts tr = 2 + 1.
Proof.
  apply C5_Apply_succeeds_after_k_transient_failures
    with (ss := [ex_unavailable; ex_unavailable]) (s_ok := ex_ok).
  - reflexivity.
  - reflexivity.
  - simpl. repeat (intros ?; split; [reflexivity|]). exact I.
  - repeat constructor.
  - reflexivity.
  - reflexivity.
  - lia.
Defined.

Lemma C6_witness :
  exists t' tr,
    Apply 3
      (ex_table 3 [ex_unavailable; ex_unavailable; ex_unavailable] [] [])
      (ex_mutation [DeleteCell])
    = Some (MakeStatusFromRpcError grpc.UNAVAILABLE Apply_error_message,
            t', tr) /\
    rpc_attempts tr = 3.
Proof.
  apply C6_Apply_terminates_at_the_bound
    with (ss := [ex_unavailable; ex_unavailable; ex_unavailable])
         (d := ex_ok).
  - reflexivity.
  - reflexivity.
  - simpl. repeat (intros ?; split; [reflexivity|]). exact I.
  - repeat constructor.
  - reflexivity.
  - lia.
Defined.


Lemma C8_witness :
  rounds_separated_by_backoff 10%Z
    [EvRpc ex_ok; EvSleep 10%Z; EvRpc ex_unavailable].
Proof.
  exact (proj1 (C8_BulkApply_waits_between_rounds
                  (M := BulkMutator ex_Mutation unit)
                  ex_bulk_table ex_bulk_mutation)
           3 _ _ _ eq_refl).
Defined.

(** C8 as the spec states it fails on this run: the wait between the two
    rounds is computed from the OK status of the first request, which
    succeeded as a whole and left its entry pending. *)
Lemma C8_counterexample :
  ~ (forall fuel failures t' tr,
        BulkApply (M := BulkMutator ex_Mutation unit) fuel
          ex_bulk_table ex_bulk_mutation = Some (failures, t', tr) ->
        waits_follow_failures_and_precede_rounds tr = true).
Proof.
  intros Hclaim.
  specialize (Hclaim 3 _ _ _ eq_refl). discriminate Hclaim.
Qed.

Lemma C9_witness :
  same_policies (ex_table 3 [ex_unavailable; ex_ok] [] [])
    (ex_table 3 [] [] []).
Proof.
  exact (proj1 (proj2
    (C9_policies_of_the_table_unchanged
       (M := BulkMutator ex_Mutation unit)
       (reader_ops := ex_reader)
       (ex_table 3 [ex_unavailable; ex_ok] [] [])))
    2 (ex_mutation [DeleteCell]) _ _ _ eq_refl).
Defined.

Lemma C10_witness :
  Apply_is_idempotent (ex_table 3 [ex_unavailable; ex_ok] [] [])
    (ex_mutation []) = true /\
  Apply 2 (ex_table 3 [ex_unavailable; ex_ok] [] []) (ex_mutation [])
  = Some (Status_default, ex_table 3 [] [] [],
          [EvRpc ex_unavailable; EvSleep 10%Z; EvRpc ex_ok]).
Proof.
  exact (C10_Apply_retries_an_empty_mutation
           (ex_table 3 [ex_unavailable; ex_ok] [] []) (ex_mutation []) 1
           (status := ex_unavailable)
           (client' := {| sc_rows := [ex_ok]; sc_bulk := [];
                          sc_reads := [] |})
           eq_refl eq_refl eq_refl eq_refl).
Defined.

(** * More of the table: what whole runs look like *)

Section ApplyRuns.

Context {Mutation ClientContext : Type}.
Context {cc_ops : ClientContextOps ClientContext}.
Context {C R B I MD : Type}.
Context {data_client : DataClient Mutation ClientContext C}.
Context {retry_policy : RPCRetryPolicy ClientContext R}.
Context {backoff_policy : RPCBackoffPolicy ClientContext B}.
Context {idempotency_policy : IdempotentMutationPolicy Mutation I}.
Context {metadata_policy : MetadataUpdatePolicy ClientContext MD}.

Implicit Types (t : Table C R B I MD) (mut : SingleRowMutation Mutation).

(** The error of [Apply] is never the OK status. *)
Lemma MakeStatusFromRpcError_not_default (c : grpc.StatusCode) :
  MakeStatusFromRpcError c Apply_error_message <> Status_default.
Proof. intros Heq. discriminate (f_equal message Heq). Qed.

(** The trace of a run of the loop that is over: it starts with an RPC,
    has one wait fewer than RPCs, every wait follows a failed RPC and
    precedes another RPC, and the waits are the delays of the backoff
    policy. *)
Lemma Apply_loop_trace fuel :
  forall md request is_idem client r b result client' tr,
    Apply_loop fuel md request is_idem client r b
    = Some (result, client', tr) ->
    (exists s rest, tr = EvRpc s :: rest) /\
    waits_follow_failures_and_precede_rounds tr = true /\
    rounds_separated_by_backoff b tr /\
    List.length tr + 1 = 2 * rpc_attempts tr.
Proof.
  induction fuel as [|fuel IH];
    intros md request is_idem client r b result client' tr Hloop;
    [discriminate|].
  simpl in Hloop.
  destruct (MutateRow client (Apply_context md r b) request)
    as [status client1].
  destruct (grpc.ok status) eqn:Hok.
  - injection Hloop as _ _ <-.
    split; [eauto|]. split; [reflexivity|]. split; [simpl; trivial|].
    reflexivity.
  - destruct (OnFailure r status) as [again r'].
    destruct (negb again || negb is_idem).
    + injection Hloop as _ _ <-.
      split; [eauto|]. split; [reflexivity|]. split; [simpl; trivial|].
      reflexivity.
    + destruct (OnCompletion b status) as [delay b'] eqn:Hdelay.
      destruct (Apply_loop fuel md request is_idem client1 r' b')
        as [[[result2 client2] tr2]|] eqn:Hrest; [|discriminate].
      injection Hloop as _ _ <-.
      destruct (IH _ _ _ _ _ _ _ _ _ Hrest)
        as ((s2 & rest & ->) & Hwaits & Hsep & Hlen).
      split; [eauto|]. split; [|split].
      * cbn [waits_follow_failures_and_precede_rounds].
        rewrite Hok. simpl negb. rewrite andb_true_l. exact Hwaits.
      * cbn [rounds_separated_by_backoff]. rewrite Hdelay.
        split; [reflexivity | exact Hsep].
      * change (rpc_attempts (EvRpc status :: EvSleep delay :: EvRpc s2 :: rest))
          with (S (rpc_attempts (EvRpc s2 :: rest))).
        simpl List.length in *. lia.
Qed.

(** The result of a run of the loop that is over is that of its last
    attempt, and every attempt before the last has failed. *)
Lemma Apply_loop_last_attempt fuel :
  forall md request is_idem client r b result client' tr,
    Apply_loop fuel md request is_idem client r b
    = Some (result, client', tr) ->
    exists tr0 s_last,
      tr = tr0 ++ [EvRpc s_last] /\
      (forall s, In (EvRpc s) tr0 -> grpc.ok s = false) /\
      (tr0 <> [] -> is_idem = true) /\
      result = (if grpc.ok s_last then Status_default
                else MakeStatusFromRpcError (grpc.error_code s_last)
                       Apply_error_message).
Proof.
  induction fuel as [|fuel IH];
    intros md request is_idem client r b result client' tr Hloop;
    [discriminate|].
  simpl in Hloop.
  destruct (MutateRow client (Apply_context md r b) request)
    as [status client1].
  destruct (grpc.ok status) eqn:Hok.
  - injection Hloop as <- _ <-. exists [], status.
    rewrite Hok. split; [reflexivity|]. split; [intros s []|].
    split; [congruence | reflexivity].
  - destruct (OnFailure r status) as [again r'].
    destruct (negb again || negb is_idem) eqn:Hstop.
    + injection Hloop as <- _ <-. exists [], status.
      rewrite Hok. split; [reflexivity|]. split; [intros s []|].
      split; [congruence | reflexivity].
    + destruct (OnCompletion b status) as [delay b'].
      destruct (Apply_loop fuel md request is_idem client1 r' b')
        as [[[result2 client2] tr2]|] eqn:Hrest; [|discriminate].
      injection Hloop as <- _ <-.
      destruct (IH _ _ _ _ _ _ _ _ _ Hrest)
        as (tr0 & s_last & -> & Hfailed & _ & Hresult).
      exists (EvRpc status :: EvSleep delay :: tr0), s_last.
      split; [reflexivity|]. split; [|split; [|exact Hresult]].
      * intros s [Heq | [Heq | Hin]];
          [injection Heq as <-; exact Hok | discriminate | now apply Hfailed].
      * intros _. apply orb_false_iff in Hstop as [_ Hidem].
        now apply negb_false_iff.
Qed.

(** X1.  A request that is not idempotent is attempted exactly once,
    whatever the retry policy answers: [Apply] returns after its first
    attempt, with OK when the attempt succeeded and with the permanent
    error made from its code when it failed, and has not waited. *)
Theorem X1_Apply_attempts_non_idempotent_once t mut fuel :
  Apply_is_idempotent t mut = false ->
  exists status client',
    MutateRow (client_ t)
      (Apply_context (metadata_update_policy_ t)
         (retry_clone (rpc_retry_policy_ t))
         (backoff_clone (rpc_backoff_policy_ t)))
      (Apply_request t mut) = (status, client') /\
    Apply (S fuel) t mut
    = Some (if grpc.ok status then Status_default
            else MakeStatusFromRpcError (grpc.error_code status)
                   Apply_error_message,
            set_client t client', [EvRpc status]).
Proof.
  intros Hidem. unfold Apply. rewrite Hidem. simpl.
  destruct (MutateRow _ _ _) as [status client']. exists status, client'.
  split; [reflexivity|].
  destruct (grpc.ok status); [reflexivity|].
  destruct (OnFailure _ status) as [again r'].
  rewrite orb_true_r. reflexivity.
Qed.

(** X2.  In a run of [Apply] that is over, every wait comes right after
    an attempt that failed and right before the next attempt: there is no
    wait before the first attempt and none after the last, one wait fewer
    than attempts, and each wait is the delay that the backoff policy
    computed from the failure just before it. *)
Theorem X2_Apply_waits_only_between_attempts t mut fuel result t' tr :
  Apply fuel t mut = Some (result, t', tr) ->
  waits_follow_failures_and_precede_rounds tr = true /\
  rounds_separated_by_backoff (backoff_clone (rpc_backoff_policy_ t)) tr /\
  1 <= rpc_attempts tr /\
  List.length tr + 1 = 2 * rpc_attempts tr.
Proof.
  unfold Apply. intros Hrun.
  destruct (Apply_loop fuel _ _ _ _ _ _) as [[[result0 client0] tr0]|]
    eqn:Hloop; [|discriminate].
  injection Hrun as _ _ <-.
  destruct (Apply_loop_trace _ _ _ _ _ _ _ Hloop)
    as ((s & rest & Htr) & Hwaits & Hsep & Hlen).
  repeat split; try assumption. lia.
Qed.

(** X3.  The status that [Apply] returns is decided by its last attempt
    alone: OK exactly when that attempt succeeded, and otherwise the
    permanent error with the code of that attempt.  Every attempt before
    the last one failed, and there are such attempts only for a request
    that is idempotent. *)
Theorem X3_Apply_result_is_that_of_the_last_attempt
  t mut fuel result t' tr :
  Apply fuel t mut = Some (result, t', tr) ->
  exists tr0 s_last,
    tr = tr0 ++ [EvRpc s_last] /\
    (forall s, In (EvRpc s) tr0 -> grpc.ok s = false) /\
    (tr0 <> [] -> Apply_is_idempotent t mut = true) /\
    (result = Status_default <-> grpc.ok s_last = true) /\
    (grpc.ok s_last = false ->
     result = MakeStatusFromRpcError (grpc.error_code s_last)
                Apply_error_message).
Proof.
  unfold Apply. intros Hrun.
  destruct (Apply_loop fuel _ _ _ _ _ _) as [[[result0 client0] tr0]|]
    eqn:Hloop; [|discriminate].
  injection Hrun as <- _ <-.
  destruct (Apply_loop_last_attempt _ _ _ _ _ _ _ Hloop)
    as (tr1 & s_last & -> & Hfailed & Hidem & Hresult).
  exists tr1, s_last. split; [reflexivity|]. split; [exact Hfailed|].
  split; [exact Hidem|]. subst result0.
  destruct (grpc.ok s_last).
  - split; [split; reflexivity | discriminate].
  - split; [split; [|discriminate] | reflexivity].
    intros Habs. now apply MakeStatusFromRpcError_not_default in Habs.
Qed.

End ApplyRuns.

Section BulkApplyRuns.

Context {Mutation ClientContext : Type}.
Context {cc_ops : ClientContextOps ClientContext}.
Context {C R B I MD M : Type}.
Context {data_client : DataClient Mutation ClientContext C}.
Context {retry_policy : RPCRetryPolicy ClientContext R}.
Context {backoff_policy : RPCBackoffPolicy ClientContext B}.
Context {idempotency_policy : IdempotentMutationPolicy Mutation I}.
Context {metadata_policy : MetadataUpdatePolicy ClientContext MD}.
Context {mutator_ops : BulkMutatorOps Mutation ClientContext C I M}.

Implicit Types (t : Table C R B I MD) (mut : BulkMutation Mutation).
Implicit Types (st fin : BulkState C R B M) (md : MD).

Lemma set_client_same t : set_client t (client_ t) = t.
Proof. destruct t. reflexivity. Qed.


(** X5.  [BulkApply] gives up with mutations still pending only on a
    request that failed as a whole: when its loop is over, from whatever
    state it was started, either the mutator has nothing pending, or the
    last thing the loop did was a request that came back with a failure
    (and no wait followed). *)
Theorem X5_BulkApply_gives_up_only_on_a_failed_request fuel :
  forall md st fin tr,
    BulkApply_loop fuel md st = Some (fin, tr) ->
    HasPendingMutations (bs_mutator fin) = false \/
    exists tr0 s, tr = tr0 ++ [EvRpc s] /\ grpc.ok s = false.
Proof.
  induction fuel as [|fuel IH]; intros md st fin tr Hloop; [discriminate|].
  cbn [BulkApply_loop] in Hloop.
  destruct (HasPendingMutations (bs_mutator st)) eqn:Hpending.
  - destruct (BulkApply_round_cases md st)
      as [(Hfail & _ & st' & Hround) | (_ & st' & Hround & _)];
      rewrite Hround in Hloop.
    + injection Hloop as <- <-. right.
      exists [], (round_status md st). split; [reflexivity | exact Hfail].
    + destruct (BulkApply_loop fuel md st') as [[fin' tr']|] eqn:Hrest;
        [|discriminate].
      injection Hloop as <- <-.
      destruct (IH _ _ _ _ Hrest) as [Hdone | (tr0 & s & -> & Hfail)];
        [now left|].
      right. eexists (_ :: _ :: tr0), s. split; [reflexivity | exact Hfail].
  - injection Hloop as <- <-. now left.
Qed.

End BulkApplyRuns.

Section ReadRowRuns.

Context {ClientContext Filter RowSet Cell : Type}.
Context {rs_ops : RowSetOps RowSet}.
Context {C R B I MD : Type}.
Context {retry_policy : RPCRetryPolicy ClientContext R}.
Context {backoff_policy : RPCBackoffPolicy ClientContext B}.
Context {reader_ops : RowReaderOps Filter RowSet Cell C R B MD}.

Implicit Types (t : Table C R B I MD) (filter : Filter).

(** X6.  When the first element of the reader is an error, [ReadRow]
    returns that error as it is and does not advance the reader again;
    in general [ReadRow] advances its reader once when the first element
    is not a row, and twice when it is, never more: the client it leaves
    in the table is the one the reader holds after these steps. *)
Theorem X6_ReadRow_error_and_steps t (row_key : string) filter :
  let reader := ReadRow_reader t row_key filter in
  let reader1 := snd (RowReader_next reader) in
  let reader2 := snd (RowReader_next reader1) in
  (forall s,
      fst (RowReader_next reader) = Some (Failure s) ->
      ReadRow t row_key filter
      = (Failure s, set_client t (rr_client reader1)))
  /\ snd (ReadRow t row_key filter)
     = set_client t
         (rr_client match fst (RowReader_next reader) with
                    | Some (Value _) => reader2
                    | _ => reader1
                    end).
Proof.
  intros reader reader1 reader2. subst reader1 reader2.
  unfold ReadRow. fold reader.
  destruct (RowReader_next reader) as [it reader1]. simpl.
  split.
  - intros s ->. reflexivity.
  - destruct it as [[row|s]|]; try reflexivity.
    destruct (RowReader_next reader1) as [[e|] reader2]; reflexivity.
Qed.

(** X7.  The answer of [ReadRow] tells what the reader yielded.  A
    not-found answer carries the empty row and means the reader was at its
    end from the start; a found answer carries the first element of the
    reader, which was then at its end; an error is either the error that
    the reader yielded first, or the internal error, and then the reader
    had yielded a row and something more. *)
Theorem X7_ReadRow_answer_tells_what_was_read t (row_key : string) filter :
  let reader := ReadRow_reader t row_key filter in
  let reader1 := snd (RowReader_next reader) in
  (forall found row,
      fst (ReadRow t row_key filter) = Value (found, row) ->
      (found = false /\ row = Row_empty /\
       fst (RowReader_next reader) = None)
      \/ (found = true /\
          fst (RowReader_next reader) = Some (Value row) /\
          fst (RowReader_next reader1) = None))
  /\ (forall s,
        fst (ReadRow t row_key filter) = Failure s ->
        fst (RowReader_next reader) = Some (Failure s)
        \/ (s = {| code := kInternal; message := ReadRow_error_message |} /\
            exists row e,
              fst (RowReader_next reader) = Some (Value row) /\
              fst (RowReader_next reader1) = Some e)).
Proof.
  intros reader reader1. subst reader1.
  unfold ReadRow. fold reader.
  destruct (RowReader_next reader) as [it reader1]. simpl.
  destruct it as [[row|s]|]; simpl.
  - destruct (RowReader_next reader1) as [[e|] reader2]; simpl; split.
    + intros found row' Habs. discriminate.
    + intros s Heq. injection Heq as <-. right. split; [reflexivity|].
      exists row, e. split; reflexivity.
    + intros found row' Heq. injection Heq as <- <-. right.
      repeat split.
    + intros s Habs. discriminate.
  - split.
    + intros found row Habs. discriminate.
    + intros s' Heq. injection Heq as <-. now left.
  - split.
    + intros found row Heq. injection Heq as <- <-. left. repeat split.
    + intros s Habs. discriminate.
Qed.

End ReadRowRuns.

(** * Table::CheckAndMutateRow *)

Section CheckAndMutateRow.

Context {Mutation ClientContext Filter RowFilter : Type}.
Context {C R B I MD : Type}.
Context {retry_policy : RPCRetryPolicy ClientContext R}.
Context {backoff_policy : RPCBackoffPolicy ClientContext B}.

(** [bigtable::Mutation]: the wrapper around the wire mutation [op]. *)
Record bigtable_Mutation : Type := { op : Mutation }.

(** [btproto::CheckAndMutateRowRequest]. *)
Record CheckAndMutateRowRequest : Type :=
  { camr_table_name : string;
    camr_app_profile_id : string;
    camr_row_key : string;
    camr_predicate_filter : option RowFilter;
    camr_true_mutations : list Mutation;
    camr_false_mutations : list Mutation }.

Definition CheckAndMutateRowRequest_empty : CheckAndMutateRowRequest :=
  {| camr_table_name := ""; camr_app_profile_id := ""; camr_row_key := "";
     camr_predicate_filter := None;
     camr_true_mutations := []; camr_false_mutations := [] |}.

Definition set_row_key (request : CheckAndMutateRowRequest) (key : string)
  : CheckAndMutateRowRequest :=
  {| camr_table_name := camr_table_name request;
     camr_app_profile_id := camr_app_profile_id request;
     camr_row_key := key;
     camr_predicate_filter := camr_predicate_filter request;
     camr_true_mutations := camr_true_mutations request;
     camr_false_mutations := camr_false_mutations request |}.

(** [SetCommonTableOperationRequest<btproto::CheckAndMutateRowRequest>]. *)
Definition SetCommonTableOperationRequest_camr
  (request : CheckAndMutateRowRequest) (app_profile table : string)
  : CheckAndMutateRowRequest :=
  {| camr_table_name := table;
     camr_app_profile_id := app_profile;
     camr_row_key := camr_row_key request;
     camr_predicate_filter := camr_predicate_filter request;
     camr_true_mutations := camr_true_mutations request;
     camr_false_mutations := camr_false_mutations request |}.

(** [*request.mutable_predicate_filter() = ...]. *)
Definition set_predicate_filter (request : CheckAndMutateRowRequest)
  (filter : RowFilter) : CheckAndMutateRowRequest :=
  {| camr_table_name := camr_table_name request;
     camr_app_profile_id := camr_app_profile_id request;
     camr_row_key := camr_row_key request;
     camr_predicate_filter := Some filter;
     camr_true_mutations := camr_true_mutations request;
     camr_false_mutations := camr_false_mutations request |}.

(** [*request.add_true_mutations() = ...]: one more at the end. *)
Definition add_true_mutations (request : CheckAndMutateRowRequest)
  (m : Mutation) : CheckAndMutateRowRequest :=
  {| camr_table_name := camr_table_name request;
     camr_app_profile_id := camr_app_profile_id request;
     camr_row_key := camr_row_key request;
     camr_predicate_filter := camr_predicate_filter request;
     camr_true_mutations := camr_true_mutations request ++ [m];
     camr_false_mutations := camr_false_mutations request |}.

Definition add_false_mutations (request : CheckAndMutateRowRequest)
  (m : Mutation) : CheckAndMutateRowRequest :=
  {| camr_table_name := camr_table_name request;
     camr_app_profile_id := camr_app_profile_id request;
     camr_row_key := camr_row_key request;
     camr_predicate_filter := camr_predicate_filter request;
     camr_true_mutations := camr_true_mutations request;
     camr_false_mutations := camr_false_mutations request ++ [m] |}.

Record CheckAndMutateRowResponse : Type := { predicate_matched : bool }.

(** What [CheckAndMutateRow] uses and the sources do not hold:
    [Filter::as_proto], the overload of [is_idempotent] for a whole
    request, [ClientUtils::MakeCall] for [DataClient::CheckAndMutateRow]
    (it answers the response, the status it leaves in [status], and the
    client after the call), and [MakeStatusFromRpcError] on a status. *)
Class CheckAndMutateRowOps : Type :=
  { as_proto : Filter -> RowFilter;
    is_idempotent_request : I -> CheckAndMutateRowRequest -> bool;
    MakeCall :
      C -> R -> B -> MD -> CheckAndMutateRowRequest -> string -> bool ->
      CheckAndMutateRowResponse * grpc.Status * C;
    MakeStatusFromRpcError_status : grpc.Status -> Status }.

Context `{CheckAndMutateRowOps}.

(** The request that [CheckAndMutateRow] builds. *)
Definition CheckAndMutateRow_request (t : Table C R B I MD)
  (row_key : string) (filter : Filter)
  (true_mutations false_mutations : list bigtable_Mutation)
  : CheckAndMutateRowRequest :=
  let request := CheckAndMutateRowRequest_empty in
  let request := set_row_key request row_key in
  let request :=
    SetCommonTableOperationRequest_camr request
      (app_profile_id_ t) (table_name_ t) in
  let request := set_predicate_filter request (as_proto filter) in
  let request :=
    fold_left (fun request m => add_true_mutations request (op m))
      true_mutations request in
  let request :=
    fold_left (fun request m => add_false_mutations request (op m))
      false_mutations request in
  request.

Definition CheckAndMutateRow (t : Table C R B I MD)
  (row_key : string) (filter : Filter)
  (true_mutations false_mutations : list bigtable_Mutation)
  : StatusOr bool * Table C R B I MD :=
  let request :=
    CheckAndMutateRow_request t row_key filter true_mutations
      false_mutations in
  let is_idem :=
    is_idempotent_request (idempotent_mutation_policy_ t) request in
  let '(response, status, client') :=
    MakeCall (client_ t) (retry_clone (rpc_retry_policy_ t))
      (backoff_clone (rpc_backoff_policy_ t)) (metadata_update_policy_ t)
      request "Table::CheckAndMutateRow" is_idem in
  if negb (grpc.ok status) then
    (Failure (MakeStatusFromRpcError_status status), set_client t client')
  else (Value (predicate_matched response), set_client t client').

(** Adding mutations to one branch appends them in order and leaves the
    rest of the request alone. *)
Lemma fold_add_true_mutations (ms : list bigtable_Mutation) :
  forall request,
    fold_left (fun request m => add_true_mutations request (op m)) ms request
    = {| camr_table_name := camr_table_name request;
         camr_app_profile_id := camr_app_profile_id request;
         camr_row_key := camr_row_key request;
         camr_predicate_filter := camr_predicate_filter request;
         camr_true_mutations := camr_true_mutations request ++ map op ms;
         camr_false_mutations := camr_false_mutations request |}.
Proof.
  induction ms as [|m ms IH]; intros request; simpl.
  - rewrite app_nil_r. destruct request. reflexivity.
  - rewrite IH. simpl. rewrite <- app_assoc. reflexivity.
Qed.

Lemma fold_add_false_mutations (ms : list bigtable_Mutation) :
  forall request,
    fold_left (fun request m => add_false_mutations request (op m)) ms request
    = {| camr_table_name := camr_table_name request;
         camr_app_profile_id := camr_app_profile_id request;
         camr_row_key := camr_row_key request;
         camr_predicate_filter := camr_predicate_filter request;
         camr_true_mutations := camr_true_mutations request;
         camr_false_mutations := camr_false_mutations request ++ map op ms |}.
Proof.
  induction ms as [|m ms IH]; intros request; simpl.
  - rewrite app_nil_r. destruct request. reflexivity.
  - rewrite IH. simpl. rewrite <- app_assoc. reflexivity.
Qed.

(** X8.  The request of [CheckAndMutateRow] holds the wire mutations of
    the true branch and those of the false branch, each branch in its own
    field, complete and in the order given, with the row key, the filter
    in wire form, and the profile and table of the [Table]; and the one
    call that [CheckAndMutateRow] makes is made with this request, with
    clones of the retry and backoff policies, and with the idempotency
    that the policy of the table answers for this request. *)
Theorem X8_CheckAndMutateRow_request_keeps_both_branches
  (t : Table C R B I MD) (row_key : string) (filter : Filter)
  (true_mutations false_mutations : list bigtable_Mutation) :
  let request :=
    CheckAndMutateRow_request t row_key filter true_mutations
      false_mutations in
  request
  = {| camr_table_name := table_name_ t;
       camr_app_profile_id := app_profile_id_ t;
       camr_row_key := row_key;
       camr_predicate_filter := Some (as_proto filter);
       camr_true_mutations := map op true_mutations;
       camr_false_mutations := map op false_mutations |}
  /\ fst (CheckAndMutateRow t row_key filter true_mutations false_mutations)
     = (let '(response, status, _) :=
          MakeCall (client_ t) (retry_clone (rpc_retry_policy_ t))
            (backoff_clone (rpc_backoff_policy_ t))
            (metadata_update_policy_ t) request "Table::CheckAndMutateRow"
            (is_idempotent_request (idempotent_mutation_policy_ t) request) in
        if grpc.ok status then Value (predicate_matched response)
        else Failure (MakeStatusFromRpcError_status status)).
Proof.
  intros request. split.
  - subst request. unfold CheckAndMutateRow_request.
    rewrite fold_add_true_mutations, fold_add_false_mutations. reflexivity.
  - unfold CheckAndMutateRow. fold request.
    destruct (MakeCall _ _ _ _ _ _ _) as [[response status] client'].
    destruct (grpc.ok status); reflexivity.
Qed.

End CheckAndMutateRow.

(** * The stub generator

    [generator/internal/stub_generator.cc]: [StubGenerator::GenerateHeader]
    and [StubGenerator::GenerateCc].  The two functions print templates to
    the header and to the source file through the printing functions of
    [ServiceCodeGenerator], which are not among the sources; what is kept
    of a run is the sequence of these calls with their arguments, and the
    status returned.  The templates are the string literals of the source,
    adjacent literals joined as the compiler joins them. *)

Module StubGenerator.

(** The predicates on methods that the patterns name. *)
Inductive MethodPredicate : Type :=
| IsResponseTypeEmpty | IsNonStreaming | IsStreamingRead.

(** [PredicatedFragment]: a text, or one of two texts by a predicate. *)
Inductive PredicatedFragment : Type :=
| Fragment (text : string)
| Choice (p : MethodPredicate) (if_true if_false : string).

(** [MethodPattern]: the fragments, and the predicate that selects the
    pattern. *)
Record MethodPattern : Type :=
  { fragments : list PredicatedFragment; guard : MethodPredicate }.

Inductive NamespaceType : Type := kInternal.

(** [Status::ok]. *)
Definition Status_ok (s : Status) : bool :=
  match code s with kOk => true | _ => false end.

Definition newline : string :=
"
".

(** The head of the header, with the include guard. *)
Definition header_preamble : string :=
"// Generated by the Codegen C++ plugin.
// If you make any local changes, they will be lost.
// source: $proto_file_name$
#ifndef $header_include_guard$
#define $header_include_guard$

".

(** The abstract stub class. *)
Definition stub_class_open : string :=
"class $stub_class_name$ {
 public:
  virtual ~$stub_class_name$() = 0;

".

Definition stub_status_method : string :=
"  virtual Status $method_name$(
".

Definition stub_statusor_method : string :=
"  virtual StatusOr<$response_type$> $method_name$(
".

Definition stub_method_arguments : string :=
"    grpc::ClientContext& context,
    $request_type$ const& request) = 0;

".

Definition stub_streaming_method : string :=
"  virtual std::unique_ptr<internal::StreamingReadRpc<$response_type$>>
  $method_name$(
    grpc::ClientContext& context,
    $request_type$ const& request) = 0;

".

(** The long running operation methods of the abstract class. *)
Definition stub_longrunning_methods : string :=
"  /// Poll a long-running operation.
  virtual StatusOr<google::longrunning::Operation> GetOperation(
      grpc::ClientContext& client_context,
      google::longrunning::GetOperationRequest const& request) = 0;

  /// Cancel a long-running operation.
  virtual Status CancelOperation(
      grpc::ClientContext& client_context,
      google::longrunning::CancelOperationRequest const& request) = 0;

".

Definition class_close : string :=
"};

".

(** The default stub class. *)
Definition default_stub_class_open : string :=
"class Default$stub_class_name$ : public $stub_class_name$ {
 public:
".

Definition default_stub_constructor_longrunning : string :=
"  Default$stub_class_name$(
      std::unique_ptr<$grpc_stub_fqn$::StubInterface> grpc_stub,
      std::unique_ptr<google::longrunning::Operations::StubInterface> operations)
      : grpc_stub_(std::move(grpc_stub)),
        operations_(std::move(operations)) {}

".

Definition default_stub_constructor : string :=
"  explicit Default$stub_class_name$(
      std::unique_ptr<$grpc_stub_fqn$::StubInterface> grpc_stub)
      : grpc_stub_(std::move(grpc_stub)) {}

".

Definition default_stub_status : string :=
"  Status
".

Definition default_stub_statusor : string :=
"  StatusOr<$response_type$>
".

Definition default_stub_method : string :=
"  $method_name$(
    grpc::ClientContext& client_context,
    $request_type$ const& request) override;

".

Definition default_stub_streaming_method : string :=
"  std::unique_ptr<internal::StreamingReadRpc<$response_type$>>
  $method_name$(
    grpc::ClientContext& client_context,
    $request_type$ const& request) override;

".

Definition default_stub_longrunning_methods : string :=
"  /// Poll a long-running operation.
  StatusOr<google::longrunning::Operation> GetOperation(
      grpc::ClientContext& client_context,
      google::longrunning::GetOperationRequest const& request) override;

  /// Cancel a long-running operation.
  Status CancelOperation(
      grpc::ClientContext& client_context,
      google::longrunning::CancelOperationRequest const& request) override;

".

Definition default_stub_members : string :=
" private:
  std::unique_ptr<$grpc_stub_fqn$::StubInterface> grpc_stub_;
".

Definition default_stub_operations_member : string :=
"  std::unique_ptr<google::longrunning::Operations::StubInterface> operations_;
".

(** The end of the include guard. *)
Definition header_guard_close : string :=
"#endif  // $header_include_guard$
".

(** The head of the source file. *)
Definition cc_preamble : string :=
"// Generated by the Codegen C++ plugin.
// If you make any local changes, they will be lost.
// source: $proto_file_name$

".

Definition stub_destructor : string :=
"$stub_class_name$::~$stub_class_name$() = default;

".

Definition cc_status : string :=
"Status
".

Definition cc_statusor : string :=
"StatusOr<$response_type$>
".

Definition cc_method_call : string :=
"Default$stub_class_name$::$method_name$(
  grpc::ClientContext& client_context,
  $request_type$ const& request) {
    $response_type$ response;
    auto status =
        grpc_stub_->$method_name$(&client_context, request, &response);
    if (!status.ok()) {
      return google::cloud::MakeStatusFromRpcError(status);
    }
".

Definition cc_return_status : string :=
"    return google::cloud::Status();
".

Definition cc_return_response : string :=
"    return response;
".

Definition cc_method_close : string :=
"}

".

Definition cc_streaming_method : string :=
"std::unique_ptr<internal::StreamingReadRpc<$response_type$>>
Default$stub_class_name$::$method_name$(
    grpc::ClientContext&,
    $request_type$ const& request) {
  auto context = absl::make_unique<grpc::ClientContext>();
  auto stream = grpc_stub_->TailLogEntries(context.get(), request);
  return absl::make_unique<internal::StreamingReadRpcImpl<
      ::google::test::admin::database::v1::TailLogEntriesResponse>>(
      std::move(context), std::move(stream));
}

".

(** The definitions of the long running operation methods. *)
Definition cc_longrunning_methods : string :=
"/// Poll a long-running operation.
StatusOr<google::longrunning::Operation>
Default$stub_class_name$::GetOperation(
    grpc::ClientContext& client_context,
    google::longrunning::GetOperationRequest const& request) {
  google::longrunning::Operation response;
  grpc::Status status =
      operations_->GetOperation(&client_context, request, &response);
  if (!status.ok()) {
    return google::cloud::MakeStatusFromRpcError(status);
  }
  return response;
}
/// Cancel a long-running operation.
Status Default$stub_class_name$::CancelOperation(
    grpc::ClientContext& client_context,
    google::longrunning::CancelOperationRequest const& request) {
  google::protobuf::Empty response;
  grpc::Status status =
      operations_->CancelOperation(&client_context, request, &response);
  if (!status.ok()) {
    return google::cloud::MakeStatusFromRpcError(status);
  }
  return google::cloud::Status();
}
".

(** The patterns of a method in the abstract class, in the default stub
    class, and in the source file. *)
Definition stub_method_patterns : list MethodPattern :=
  [ {| fragments :=
         [Choice IsResponseTypeEmpty stub_status_method stub_statusor_method;
          Fragment stub_method_arguments];
       guard := IsNonStreaming |};
    {| fragments := [Fragment stub_streaming_method];
       guard := IsStreamingRead |} ].

Definition default_stub_method_patterns : list MethodPattern :=
  [ {| fragments :=
         [Choice IsResponseTypeEmpty default_stub_status default_stub_statusor;
          Fragment default_stub_method];
       guard := IsNonStreaming |};
    {| fragments := [Fragment default_stub_streaming_method];
       guard := IsStreamingRead |} ].

Definition cc_method_patterns : list MethodPattern :=
  [ {| fragments :=
         [Choice IsResponseTypeEmpty cc_status cc_statusor;
          Fragment cc_method_call;
          Choice IsResponseTypeEmpty cc_return_status cc_return_response;
          Fragment cc_method_close];
       guard := IsNonStreaming |};
    {| fragments := [Fragment cc_streaming_method];
       guard := IsStreamingRead |} ].

(** *** Reading a pattern *)

(** The text [s] contains the text [sub]. *)
Fixpoint contains (sub s : string) : bool :=
  String.prefix sub s
  || match s with
     | EmptyString => false
     | String _ s' => contains sub s'
     end.

(** The texts a fragment can print. *)
Definition fragment_texts (f : PredicatedFragment) : list string :=
  match f with
  | Fragment text => [text]
  | Choice _ if_true if_false => [if_true; if_false]
  end.

(** Whatever its predicates answer, the pattern prints [sub]: one of its
    fragments has it in each of its texts. *)
Definition pattern_prints (sub : string) (p : MethodPattern) : bool :=
  existsb (fun f => forallb (contains sub) (fragment_texts f)) (fragments p).

(** Some text of the pattern has [sub]. *)
Definition pattern_mentions (sub : string) (p : MethodPattern) : bool :=
  existsb (contains sub) (flat_map fragment_texts (fragments p)).

Section Generator.

(** [google::protobuf::MethodDescriptor]. *)
Context {Method : Type}.

(** One call of a printing function: [HeaderPrint] or [CcPrint] of a
    text, the include lists, the opening and closing of the namespaces,
    and [HeaderPrintMethod] or [CcPrintMethod] of a method with its
    patterns. *)
Inductive PrintOp : Type :=
| PrintText (text : string)
| LocalIncludes (includes : list string)
| SystemIncludes (includes : list string)
| OpenNamespaces (ns : NamespaceType)
| CloseNamespaces
| PrintMethod (method : Method) (patterns : list MethodPattern).

(** What the two functions read from [ServiceCodeGenerator]: the methods
    of the service, the variables, whether the service has a streaming
    read or a long running method, the license header, and the status
    with which the namespaces of each file open. *)
Record ServiceCodeGenerator : Type :=
  { methods : list Method;
    vars : string -> string;
    HasStreamingReadMethod : bool;
    HasLongrunningMethod : bool;
    CopyrightLicenseFileHeader : string;
    HeaderOpenNamespaces : NamespaceType -> Status;
    CcOpenNamespaces : NamespaceType -> Status }.

(** [StubGenerator::GenerateHeader]: the status, and the calls made on
    the header. *)
Definition GenerateHeader (g : ServiceCodeGenerator)
  : Status * list PrintOp :=
  let out := [PrintText (CopyrightLicenseFileHeader g)] in
  let out := out ++ [PrintText header_preamble] in
  let out :=
    out ++ [LocalIncludes
              [if HasStreamingReadMethod g
               then "google/cloud/internal/streaming_read_rpc.h" else "";
               "google/cloud/status_or.h"; "google/cloud/version.h"]] in
  let out :=
    out ++ [SystemIncludes
              [vars g "proto_grpc_header_path";
               if HasLongrunningMethod g
               then "google/longrunning/operations.grpc.pb.h" else "";
               "memory"]] in
  let out := out ++ [PrintText newline] in
  let result := HeaderOpenNamespaces g kInternal in
  let out := out ++ [OpenNamespaces kInternal] in
  if negb (Status_ok result) then (result, out)
  else
    let out := out ++ [PrintText stub_class_open] in
    let out :=
      out ++ map (fun method => PrintMethod method stub_method_patterns)
                 (methods g) in
    let out :=
      if HasLongrunningMethod g
      then out ++ [PrintText stub_longrunning_methods] else out in
    let out := out ++ [PrintText class_close] in
    let out := out ++ [PrintText default_stub_class_open] in
    let out :=
      if HasLongrunningMethod g
      then out ++ [PrintText default_stub_constructor_longrunning]
      else out ++ [PrintText default_stub_constructor] in
    let out :=
      out ++ map (fun method =>
                    PrintMethod method default_stub_method_patterns)
                 (methods g) in
    let out :=
      if HasLongrunningMethod g
      then out ++ [PrintText default_stub_longrunning_methods] else out in
    let out := out ++ [PrintText default_stub_members] in
    let out :=
      if HasLongrunningMethod g
      then out ++ [PrintText default_stub_operations_member] else out in
    let out := out ++ [PrintText class_close] in
    let out := out ++ [CloseNamespaces] in
    let out := out ++ [PrintText header_guard_close] in
    (Status_default, out).

(** [StubGenerator::GenerateCc]: the status, and the calls made on the
    source file. *)
Definition GenerateCc (g : ServiceCodeGenerator) : Status * list PrintOp :=
  let out := [PrintText (CopyrightLicenseFileHeader g)] in
  let out := out ++ [PrintText cc_preamble] in
  let out :=
    out ++ [LocalIncludes
              [vars g "stub_header_path";
               if HasStreamingReadMethod g
               then "absl/memory/memory.h" else "";
               "google/cloud/grpc_error_delegate.h";
               "google/cloud/status_or.h"]] in
  let out :=
    out ++ [SystemIncludes
              [vars g "proto_grpc_header_path";
               if HasLongrunningMethod g
               then "google/longrunning/operations.grpc.pb.h" else "";
               "memory"]] in
  let out := out ++ [PrintText newline] in
  let result := CcOpenNamespaces g kInternal in
  let out := out ++ [OpenNamespaces kInternal] in
  if negb (Status_ok result) then (result, out)
  else
    let out := out ++ [PrintText stub_destructor] in
    let out :=
      out ++ map (fun method => PrintMethod method cc_method_patterns)
                 (methods g) in
    let out :=
      if HasLongrunningMethod g
      then out ++ [PrintText cc_longrunning_methods] else out in
    let out := out ++ [CloseNamespaces] in
    (Status_default, out).

(** *** Reading a sequence of calls *)

(** The methods printed, in the order of the calls. *)
Fixpoint printed_methods (ops : list PrintOp) : list Method :=
  match ops with
  | [] => []
  | PrintMethod method _ :: ops' => method :: printed_methods ops'
  | _ :: ops' => printed_methods ops'
  end.

(** The calls made once the namespaces are open. *)
Fixpoint after_open (ops : list PrintOp) : list PrintOp :=
  match ops with
  | [] => []
  | OpenNamespaces _ :: ops' => ops'
  | _ :: ops' => after_open ops'
  end.

(** The call prints class text: a template or a method. *)
Definition is_class_text (o : PrintOp) : bool :=
  match o with
  | PrintText _ | PrintMethod _ _ => true
  | _ => false
  end.

Definition is_CloseNamespaces (o : PrintOp) : bool :=
  match o with CloseNamespaces => true | _ => false end.

(** The call prints the template [text]. *)
Definition prints (text : string) (o : PrintOp) : bool :=
  match o with PrintText s => String.eqb s text | _ => false end.

(** The method calls with the patterns given to each, in the order of
    the calls. *)
Fixpoint printed_method_calls (ops : list PrintOp)
  : list (Method * list MethodPattern) :=
  match ops with
  | [] => []
  | PrintMethod method patterns :: ops' =>
      (method, patterns) :: printed_method_calls ops'
  | _ :: ops' => printed_method_calls ops'
  end.

(** The calls after the first one that prints the template [text]. *)
Fixpoint after_text (text : string) (ops : list PrintOp) : list PrintOp :=
  match ops with
  | [] => []
  | o :: ops' => if prints text o then ops' else after_text text ops'
  end.

(** The calls before the first one that closes a class. *)
Fixpoint until_class_close (ops : list PrintOp) : list PrintOp :=
  match ops with
  | [] => []
  | o :: ops' =>
      if prints class_close o then [] else o :: until_class_close ops'
  end.

(** The calls made inside the class that the template [open] opens. *)
Definition class_body (open : string) (ops : list PrintOp) : list PrintOp :=
  until_class_close (after_text open ops).

End Generator.

Arguments PrintOp : clear implicits.
Arguments ServiceCodeGenerator : clear implicits.

Section GeneratorProperties.

Context {Method : Type}.

Implicit Types (g : ServiceCodeGenerator Method).
Implicit Types (ops : list (PrintOp Method)).

Lemma printed_methods_app ops ops' :
  printed_methods (ops ++ ops') = printed_methods ops ++ printed_methods ops'.
Proof.
  induction ops as [|o ops IH]; [reflexivity|].
  destruct o; simpl; rewrite IH; reflexivity.
Qed.

Lemma printed_methods_map (patterns : list MethodPattern)
  (ms : list Method) :
  printed_methods (map (fun method => PrintMethod method patterns) ms) = ms.
Proof.
  induction ms as [|m ms IH]; [reflexivity|]. simpl. now rewrite IH.
Qed.

Lemma existsb_prints_map text (patterns : list MethodPattern)
  (ms : list Method) :
  existsb (prints text)
    (map (fun method => PrintMethod method patterns) ms) = false.
Proof. induction ms as [|m ms IH]; [reflexivity|]. exact IH. Qed.

Lemma forallb_class_text_map (patterns : list MethodPattern)
  (ms : list Method) :
  forallb is_class_text
    (map (fun method => PrintMethod method patterns) ms) = true.
Proof. induction ms as [|m ms IH]; [reflexivity|]. exact IH. Qed.

(** The calls of [GenerateHeader] once the namespaces are open. *)
Lemma GenerateHeader_after_open g :
  Status_ok (HeaderOpenNamespaces g kInternal) = true ->
  fst (GenerateHeader g) = Status_default /\
  after_open (snd (GenerateHeader g))
  = PrintText stub_class_open
    :: map (fun method => PrintMethod method stub_method_patterns) (methods g)
    ++ (if HasLongrunningMethod g
        then [PrintText stub_longrunning_methods] else [])
    ++ PrintText class_close
    :: PrintText default_stub_class_open
    :: PrintText (if HasLongrunningMethod g
                  then default_stub_constructor_longrunning
                  else default_stub_constructor)
    :: map (fun method => PrintMethod method default_stub_method_patterns)
           (methods g)
    ++ (if HasLongrunningMethod g
        then [PrintText default_stub_longrunning_methods] else [])
    ++ PrintText default_stub_members
    :: (if HasLongrunningMethod g
        then [PrintText default_stub_operations_member] else [])
    ++ [PrintText class_close; CloseNamespaces;
        PrintText header_guard_close].
Proof.
  intros Hok. unfold GenerateHeader. rewrite Hok.
  destruct (HasLongrunningMethod g);
    (split; [reflexivity|]);
    repeat first [rewrite <- app_assoc
                 | progress cbn [negb fst snd app after_open]];
    reflexivity.
Qed.

Lemma GenerateCc_after_open g :
  Status_ok (CcOpenNamespaces g kInternal) = true ->
  fst (GenerateCc g) = Status_default /\
  after_open (snd (GenerateCc g))
  = PrintText stub_destructor
    :: map (fun method => PrintMethod method cc_method_patterns) (methods g)
    ++ (if HasLongrunningMethod g
        then [PrintText cc_longrunning_methods] else [])
    ++ [CloseNamespaces].
Proof.
  intros Hok. unfold GenerateCc. rewrite Hok.
  destruct (HasLongrunningMethod g);
    (split; [reflexivity|]);
    repeat first [rewrite <- app_assoc
                 | progress cbn [negb fst snd app after_open]];
    reflexivity.
Qed.

Lemma GenerateHeader_failed g :
  Status_ok (HeaderOpenNamespaces g kInternal) = false ->
  fst (GenerateHeader g) = HeaderOpenNamespaces g kInternal /\
  after_open (snd (GenerateHeader g)) = [] /\
  printed_methods (snd (GenerateHeader g)) = [].
Proof.
  intros Hok. unfold GenerateHeader. rewrite Hok. repeat split.
Qed.

Lemma GenerateCc_failed g :
  Status_ok (CcOpenNamespaces g kInternal) = false ->
  fst (GenerateCc g) = CcOpenNamespaces g kInternal /\
  after_open (snd (GenerateCc g)) = [] /\
  printed_methods (snd (GenerateCc g)) = [].
Proof.
  intros Hok. unfold GenerateCc. rewrite Hok. repeat split.
Qed.

(** X9.  Either file opens with its head whatever happens (the header
    with the head that opens the include guard).  When the namespaces of
    a file do not open, the function returns the status of that failure
    and prints nothing more: no class, no closing of the namespaces, and
    for the header no end of the include guard.  When they open, the
    function returns OK, everything printed after that up to the closing
    of the namespaces is class text, the namespaces are closed once, and
    in the header the end of the include guard comes last. *)
Theorem X9_generation_stops_when_namespaces_do_not_open g :
  (nth_error (snd (GenerateHeader g)) 1 = Some (PrintText header_preamble) /\
   nth_error (snd (GenerateCc g)) 1 = Some (PrintText cc_preamble))
  /\ (Status_ok (HeaderOpenNamespaces g kInternal) = false ->
      fst (GenerateHeader g) = HeaderOpenNamespaces g kInternal /\
      after_open (snd (GenerateHeader g)) = [])
  /\ (Status_ok (HeaderOpenNamespaces g kInternal) = true ->
      fst (GenerateHeader g) = Status_default /\
      exists body,
        after_open (snd (GenerateHeader g))
        = body ++ [CloseNamespaces; PrintText header_guard_close] /\
        forallb is_class_text body = true)
  /\ (Status_ok (CcOpenNamespaces g kInternal) = false ->
      fst (GenerateCc g) = CcOpenNamespaces g kInternal /\
      after_open (snd (GenerateCc g)) = [])
  /\ (Status_ok (CcOpenNamespaces g kInternal) = true ->
      fst (GenerateCc g) = Status_default /\
      exists body,
        after_open (snd (GenerateCc g)) = body ++ [CloseNamespaces] /\
        forallb is_class_text body = true).
Proof.
  split.
  { unfold GenerateHeader, GenerateCc.
    destruct (Status_ok (HeaderOpenNamespaces g kInternal)),
      (Status_ok (CcOpenNamespaces g kInternal)),
      (HasLongrunningMethod g);
      split; reflexivity. }
  split; [|split; [|split]].
  - intros Hok. destruct (GenerateHeader_failed g Hok) as (Hs & Hafter & _).
    now split.
  - intros Hok. destruct (GenerateHeader_after_open g Hok) as [Hs Hafter].
    split; [exact Hs|]. rewrite Hafter.
    exists (PrintText stub_class_open
            :: map (fun method => PrintMethod method stub_method_patterns)
                   (methods g)
            ++ (if HasLongrunningMethod g
                then [PrintText stub_longrunning_methods] else [])
            ++ PrintText class_close
            :: PrintText default_stub_class_open
            :: PrintText (if HasLongrunningMethod g
                          then default_stub_constructor_longrunning
                          else default_stub_constructor)
            :: map (fun method =>
                      PrintMethod method default_stub_method_patterns)
                   (methods g)
            ++ (if HasLongrunningMethod g
                then [PrintText default_stub_longrunning_methods] else [])
            ++ PrintText default_stub_members
            :: (if HasLongrunningMethod g
                then [PrintText default_stub_operations_member] else [])
            ++ [PrintText class_close]).
    split.
    + repeat first [rewrite <- app_assoc | rewrite <- app_comm_cons].
      reflexivity.
    + cbn [forallb is_class_text andb].
      repeat first [rewrite forallb_app
                   | rewrite forallb_class_text_map
                   | progress cbn [forallb is_class_text andb]].
      destruct (HasLongrunningMethod g); reflexivity.
  - intros Hok. destruct (GenerateCc_failed g Hok) as (Hs & Hafter & _).
    now split.
  - intros Hok. destruct (GenerateCc_after_open g Hok) as [Hs Hafter].
    split; [exact Hs|]. rewrite Hafter.
    exists (PrintText stub_destructor
            :: map (fun method => PrintMethod method cc_method_patterns)
                   (methods g)
            ++ (if HasLongrunningMethod g
                then [PrintText cc_longrunning_methods] else [])).
    split.
    + repeat first [rewrite <- app_assoc | rewrite <- app_comm_cons].
      reflexivity.
    + cbn [forallb is_class_text andb].
      repeat first [rewrite forallb_app
                   | rewrite forallb_class_text_map
                   | progress cbn [forallb is_class_text andb]].
      destruct (HasLongrunningMethod g); reflexivity.
Qed.

Lemma printed_method_calls_app ops ops' :
  printed_method_calls (ops ++ ops')
  = printed_method_calls ops ++ printed_method_calls ops'.
Proof.
  induction ops as [|o ops IH]; [reflexivity|].
  destruct o; simpl; rewrite IH; reflexivity.
Qed.

Lemma printed_method_calls_map (patterns : list MethodPattern)
  (ms : list Method) :
  printed_method_calls (map (fun method => PrintMethod method patterns) ms)
  = map (fun method => (method, patterns)) ms.
Proof.
  induction ms as [|m ms IH]; [reflexivity|]. simpl. now rewrite IH.
Qed.

Lemma after_text_PrintText text s ops :
  after_text text (PrintText s :: ops)
  = if String.eqb s text then ops else after_text text ops.
Proof. reflexivity. Qed.

Lemma after_text_map text (patterns : list MethodPattern)
  (ms : list Method) ops :
  after_text text (map (fun method => PrintMethod method patterns) ms ++ ops)
  = after_text text ops.
Proof. induction ms as [|m ms IH]; [reflexivity|]. exact IH. Qed.

Lemma until_class_close_PrintText s ops :
  until_class_close (PrintText s :: ops)
  = if String.eqb s class_close then []
    else PrintText s :: until_class_close ops.
Proof. reflexivity. Qed.

Lemma until_class_close_map (patterns : list MethodPattern)
  (ms : list Method) ops :
  until_class_close
    (map (fun method => PrintMethod method patterns) ms ++ ops)
  = map (fun method => PrintMethod method patterns) ms
    ++ until_class_close ops.
Proof.
  induction ms as [|m ms IH]; [reflexivity|].
  cbn [map app until_class_close prints]. now rewrite IH.
Qed.

(** Decides a comparison of two templates. *)
Ltac compare_templates :=
  match goal with
  | |- context [String.eqb ?a ?b] =>
      let v := eval vm_compute in (String.eqb a b) in
      change (String.eqb a b) with v; cbv iota
  end.

(** Walks through the calls of a class. *)
Ltac read_class :=
  repeat first [ rewrite after_text_map
               | rewrite after_text_PrintText; compare_templates
               | rewrite until_class_close_map
               | rewrite until_class_close_PrintText; compare_templates
               | rewrite printed_method_calls_app
               | rewrite printed_method_calls_map
               | rewrite app_nil_r
               | progress cbn [printed_method_calls app] ].

(** X10.  A generation that goes through prints every method of the
    service, in the order of the service, twice in the header and once in
    the source file, and no method otherwise; a generation that stops at
    the namespaces prints none.  In the header the first calls are those
    of the abstract class: they stand between the opening of that class
    and its close and are given the patterns of the abstract class, each
    of which declares a pure virtual method; the next are those of the
    default stub class: they stand between the opening of that class and
    its close and are given the patterns of the default stub class, each
    of which declares an override and none of which is virtual or pure.
    The calls of the source file are given the patterns that define the
    member of the default stub class.  Each of the three lists has two
    patterns, the first for the methods that do not stream and the second
    for those that stream reads. *)
Theorem X10_methods_declared_twice_and_defined_once g :
  printed_method_calls (snd (GenerateHeader g))
  = (if Status_ok (HeaderOpenNamespaces g kInternal)
     then map (fun method => (method, stub_method_patterns)) (methods g)
          ++ map (fun method => (method, default_stub_method_patterns))
                 (methods g)
     else [])
  /\ printed_method_calls (snd (GenerateCc g))
     = (if Status_ok (CcOpenNamespaces g kInternal)
        then map (fun method => (method, cc_method_patterns)) (methods g)
        else [])
  /\ (printed_method_calls
        (class_body stub_class_open (after_open (snd (GenerateHeader g))))
      = (if Status_ok (HeaderOpenNamespaces g kInternal)
         then map (fun method => (method, stub_method_patterns)) (methods g)
         else [])
      /\ printed_method_calls
           (class_body default_stub_class_open
              (after_open (snd (GenerateHeader g))))
         = (if Status_ok (HeaderOpenNamespaces g kInternal)
            then map (fun method => (method, default_stub_method_patterns))
                     (methods g)
            else []))
  /\ (map guard stub_method_patterns = [IsNonStreaming; IsStreamingRead]
      /\ map guard default_stub_method_patterns
         = [IsNonStreaming; IsStreamingRead]
      /\ map guard cc_method_patterns = [IsNonStreaming; IsStreamingRead])
  /\ (forallb (fun p => pattern_prints "virtual" p
                        && pattern_prints "request) = 0;" p)
         stub_method_patterns = true
      /\ forallb (fun p => pattern_prints "request) override;" p
                           && negb (pattern_mentions "virtual" p)
                           && negb (pattern_mentions "= 0;" p))
            default_stub_method_patterns = true
      /\ forallb (pattern_prints "Default$stub_class_name$::$method_name$(")
            cc_method_patterns = true).
Proof.
  split; [|split; [|split; [|split]]].
  - unfold GenerateHeader.
    destruct (Status_ok (HeaderOpenNamespaces g kInternal));
      [|reflexivity].
    destruct (HasLongrunningMethod g); cbn [negb snd];
      repeat rewrite printed_method_calls_app;
      repeat rewrite printed_method_calls_map;
      cbn [printed_method_calls app]; repeat rewrite app_nil_r; reflexivity.
  - unfold GenerateCc.
    destruct (Status_ok (CcOpenNamespaces g kInternal)); [|reflexivity].
    destruct (HasLongrunningMethod g); cbn [negb snd];
      repeat rewrite printed_method_calls_app;
      repeat rewrite printed_method_calls_map;
      cbn [printed_method_calls app]; repeat rewrite app_nil_r; reflexivity.
  - destruct (Status_ok (HeaderOpenNamespaces g kInternal)) eqn:Hok.
    + rewrite (proj2 (GenerateHeader_after_open g Hok)). unfold class_body.
      destruct (HasLongrunningMethod g); cbn [app];
        (split; read_class; reflexivity).
    + destruct (GenerateHeader_failed g Hok) as (_ & -> & _).
      split; reflexivity.
  - repeat split.
  - repeat split; vm_compute; reflexivity.
Qed.

(** X11.  What is declared for long running operations is defined, and
    only then.  In a generation of the two files that goes through, the
    abstract class declares [GetOperation] and [CancelOperation], the
    default stub class overrides them, takes the operations stub in its
    constructor and keeps it in a member, and the source file defines the
    two methods, all of this exactly when the service has a long running
    method; the constructor with the one argument is printed exactly when
    it has none. *)
Theorem X11_longrunning_methods_declared_iff_defined g :
  Status_ok (HeaderOpenNamespaces g kInternal) = true ->
  Status_ok (CcOpenNamespaces g kInternal) = true ->
  let header := after_open (snd (GenerateHeader g)) in
  let cc := after_open (snd (GenerateCc g)) in
  existsb (prints stub_longrunning_methods) header = HasLongrunningMethod g
  /\ existsb (prints default_stub_longrunning_methods) header
     = HasLongrunningMethod g
  /\ existsb (prints default_stub_constructor_longrunning) header
     = HasLongrunningMethod g
  /\ existsb (prints default_stub_operations_member) header
     = HasLongrunningMethod g
  /\ existsb (prints default_stub_constructor) header
     = negb (HasLongrunningMethod g)
  /\ existsb (prints cc_longrunning_methods) cc = HasLongrunningMethod g.
Proof.
  intros Hheader Hcc header cc. subst header cc.
  rewrite (proj2 (GenerateHeader_after_open g Hheader)).
  rewrite (proj2 (GenerateCc_after_open g Hcc)).
  destruct (HasLongrunningMethod g);
    cbn [existsb];
    repeat first [rewrite existsb_app
                 | rewrite existsb_prints_map
                 | progress cbn [existsb]];
    repeat split; vm_compute; reflexivity.
Qed.

End GeneratorProperties.

End StubGenerator.

(** ** These statements on concrete runs *)

(** A mutation that is not safe to replay. *)
Definition ex_unsafe_mutation : SingleRowMutation ex_Mutation :=
  ex_mutation [SetCell true].

(** The loop of [BulkApply] on [ex_bulk_table]: its last state and its
    trace. *)
Definition ex_bulk_fin
  : BulkState ScriptedClient BoundedRetryPolicy Z (BulkMutator ex_Mutation unit) :=
  Eval vm_compute in
    match BulkApply_loop 3 tt (BulkApply_init ex_bulk_table ex_bulk_mutation)
    with
    | Some (fin, _) => fin
    | None => BulkApply_init ex_bulk_table ex_bulk_mutation
    end.

Definition ex_bulk_trace : list Event :=
  [EvRpc ex_ok; EvSleep 10%Z; EvRpc ex_unavailable].

(** A service with a unary, a streaming and a long running method, and
    the same service when the namespaces do not open. *)
Definition ex_generator : StubGenerator.ServiceCodeGenerator string :=
  {| StubGenerator.methods := ["GetDatabase"; "TailLogEntries"];
     StubGenerator.vars := fun name => name;
     StubGenerator.HasStreamingReadMethod := true;
     StubGenerator.HasLongrunningMethod := true;
     StubGenerator.CopyrightLicenseFileHeader := "// Copyright";
     StubGenerator.HeaderOpenNamespaces := fun _ => Status_default;
     StubGenerator.CcOpenNamespaces := fun _ => Status_default |}.

Definition ex_bad_namespace : Status :=
  {| code := kInternal; message := "namespace" |}.

Definition ex_failing_generator : StubGenerator.ServiceCodeGenerator string :=
  {| StubGenerator.methods := ["GetDatabase"; "TailLogEntries"];
     StubGenerator.vars := fun name => name;
     StubGenerator.HasStreamingReadMethod := true;
     StubGenerator.HasLongrunningMethod := true;
     StubGenerator.CopyrightLicenseFileHeader := "// Copyright";
     StubGenerator.HeaderOpenNamespaces := fun _ => ex_bad_namespace;
     StubGenerator.CcOpenNamespaces := fun _ => ex_bad_namespace |}.

Lemma X1_witness :
  exists status client',
    MutateRow (client_ (ex_table 3 [ex_unavailable; ex_ok] [] []))
      (Apply_context tt
         (retry_clone (ClientContext := unit)
            (rpc_retry_policy_ (ex_table 3 [ex_unavailable; ex_ok] [] [])))
         10%Z)
      (Apply_request (ex_table 3 [ex_unavailable; ex_ok] [] [])
         ex_unsafe_mutation)
    = (status, client') /\
    Apply 5 (ex_table 3 [ex_unavailable; ex_ok] [] []) ex_unsafe_mutation
    = Some (if grpc.ok status then Status_default
            else MakeStatusFromRpcError (grpc.error_code status)
                   Apply_error_message,
            set_client (ex_table 3 [ex_unavailable; ex_ok] [] []) client',
            [EvRpc status]).
Proof.
  exact (X1_Apply_attempts_non_idempotent_once
           (ex_table 3 [ex_unavailable; ex_ok] [] []) ex_unsafe_mutation 4
           eq_refl).
Defined.

Lemma X2_witness :
  waits_follow_failures_and_precede_rounds
    [EvRpc ex_unavailable; EvSleep 10%Z; EvRpc ex_ok] = true /\
  rounds_separated_by_backoff
    (backoff_clone
       (rpc_backoff_policy_ (ex_table 3 [ex_unavailable; ex_ok] [] [])))
    [EvRpc ex_unavailable; EvSleep 10%Z; EvRpc ex_ok] /\
  1 <= rpc_attempts [EvRpc ex_unavailable; EvSleep 10%Z; EvRpc ex_ok] /\
  List.length [EvRpc ex_unavailable; EvSleep 10%Z; EvRpc ex_ok] + 1
  = 2 * rpc_attempts [EvRpc ex_unavailable; EvSleep 10%Z; EvRpc ex_ok].
Proof.
  apply X2_Apply_waits_only_between_attempts
    with (t := ex_table 3 [ex_unavailable; ex_ok] [] [])
         (mut := ex_mutation [DeleteCell]) (fuel := 2)
         (result := Status_default) (t' := ex_table 3 [] [] []).
  reflexivity.
Defined.

Lemma X3_witness :
  exists tr0 s_last,
    [EvRpc ex_unavailable; EvSleep 10%Z; EvRpc ex_ok]
    = tr0 ++ [EvRpc s_last] /\
    (forall s, In (EvRpc s) tr0 -> grpc.ok s = false) /\
    (tr0 <> [] ->
     Apply_is_idempotent (ex_table 3 [ex_unavailable; ex_ok] [] [])
       (ex_mutation [DeleteCell]) = true) /\
    (Status_default = Status_default <-> grpc.ok s_last = true) /\
    (grpc.ok s_last = false ->
     Status_default
     = MakeStatusFromRpcError (grpc.error_code s_last) Apply_error_message).
Proof.
  apply X3_Apply_result_is_that_of_the_last_attempt
    with (fuel := 2) (t' := ex_table 3 [] [] []).
  reflexivity.
Defined.


Lemma X5_witness :
  HasPendingMutations (bs_mutator ex_bulk_fin) = false \/
  exists tr0 s, ex_bulk_trace = tr0 ++ [EvRpc s] /\ grpc.ok s = false.
Proof.
  apply X5_BulkApply_gives_up_only_on_a_failed_request
    with (fuel := 3) (md := tt)
         (st := BulkApply_init ex_bulk_table ex_bulk_mutation).
  reflexivity.
Defined.

Lemma X6_witness :
  ReadRow (ex_table 3 [] [] [Failure ex_bad_namespace; Value ex_row])
    "row" tt
  = (Failure ex_bad_namespace, ex_table 3 [] [] [Value ex_row]).
Proof.
  exact (proj1 (X6_ReadRow_error_and_steps
                  (ex_table 3 [] [] [Failure ex_bad_namespace; Value ex_row])
                  "row" tt)
           ex_bad_namespace eq_refl).
Defined.

Lemma X7_witness :
  (true = false /\ ex_row = Row_empty /\
   fst (RowReader_next
          (ReadRow_reader (ex_table 3 [] [] [Value ex_row]) "row" tt)) = None)
  \/ (true = true /\
      fst (RowReader_next
             (ReadRow_reader (ex_table 3 [] [] [Value ex_row]) "row" tt))
      = Some (Value ex_row) /\
      fst (RowReader_next
             (snd (RowReader_next
                     (ReadRow_reader (ex_table 3 [] [] [Value ex_row])
                        "row" tt)))) = None).
Proof.
  exact (proj1 (X7_ReadRow_answer_tells_what_was_read
                  (ex_table 3 [] [] [Value ex_row]) "row" tt)
           true ex_row eq_refl).
Defined.

Lemma X9_witness :
  fst (StubGenerator.GenerateHeader ex_failing_generator) = ex_bad_namespace
  /\ StubGenerator.after_open
       (snd (StubGenerator.GenerateHeader ex_failing_generator)) = [].
Proof.
  exact (proj1 (proj2 (StubGenerator.X9_generation_stops_when_namespaces_do_not_open
                         ex_failing_generator)) eq_refl).
Defined.

Lemma X10_witness :
  StubGenerator.printed_method_calls
    (StubGenerator.class_body StubGenerator.stub_class_open
       (StubGenerator.after_open
          (snd (StubGenerator.GenerateHeader ex_generator))))
  = [("GetDatabase", StubGenerator.stub_method_patterns);
     ("TailLogEntries", StubGenerator.stub_method_patterns)]
  /\ StubGenerator.printed_method_calls
       (StubGenerator.class_body StubGenerator.default_stub_class_open
          (StubGenerator.after_open
             (snd (StubGenerator.GenerateHeader ex_generator))))
     = [("GetDatabase", StubGenerator.default_stub_method_patterns);
        ("TailLogEntries", StubGenerator.default_stub_method_patterns)].
Proof.
  exact (proj1 (proj2 (proj2
           (StubGenerator.X10_methods_declared_twice_and_defined_once
              ex_generator)))).
Defined.

Lemma X11_witness :
  existsb (StubGenerator.prints StubGenerator.stub_longrunning_methods)
    (StubGenerator.after_open
       (snd (StubGenerator.GenerateHeader ex_generator))) = true
  /\ existsb
       (StubGenerator.prints StubGenerator.default_stub_longrunning_methods)
       (StubGenerator.after_open
          (snd (StubGenerator.GenerateHeader ex_generator))) = true
  /\ existsb
       (StubGenerator.prints
          StubGenerator.default_stub_constructor_longrunning)
       (StubGenerator.after_open
          (snd (StubGenerator.GenerateHeader ex_generator))) = true
  /\ existsb
       (StubGenerator.prints StubGenerator.default_stub_operations_member)
       (StubGenerator.after_open
          (snd (StubGenerator.GenerateHeader ex_generator))) = true
  /\ existsb
       (StubGenerator.prints StubGenerator.default_stub_constructor)
       (StubGenerator.after_open
          (snd (StubGenerator.GenerateHeader ex_generator))) = negb true
  /\ existsb (StubGenerator.prints StubGenerator.cc_longrunning_methods)
       (StubGenerator.after_open
          (snd (StubGenerator.GenerateCc ex_generator))) = true.
Proof.
  exact (StubGenerator.X11_longrunning_methods_declared_iff_defined
           ex_generator eq_refl eq_refl).
Defined.
